(** * PyGame-Dev: the entity-update / collision / event loop

    A shallow embedding of the course checkpoints' game loop
    (Lesson-01/Crazy-Robot/cot_moc_4.py) and of the friendly NPC's
    event handling (Lesson-07/Checkpoint-2/src/game_entities/friendly_npc.py),
    together with the overlap detector and the entity registry they call.

    Python integers are unbounded, so positions, scores and identifiers
    are [Z]; sprite sizes are never negative, so they are [N]. *)

From stdpp Require Import base tactics option list gmap strings.
From Stdlib Require Import ZArith Lia.

Local Open Scope Z_scope.

(* ===================================================================== *)
(** * Part I: the embedding                                               *)
(* ===================================================================== *)

(** ** Rectangles and the overlap detector *)

Module OverlapDetector.

(** A pygame-style rectangle: top-left corner and a size. *)
Record Rect : Type := mkRect {
  rect_x : Z;
  rect_y : Z;
  rect_w : N;
  rect_h : N }.

Definition rect_left (r : Rect) : Z := rect_x r.
Definition rect_top (r : Rect) : Z := rect_y r.
Definition rect_right (r : Rect) : Z := rect_x r + Z.of_N (rect_w r).
Definition rect_bottom (r : Rect) : Z := rect_y r + Z.of_N (rect_h r).
Definition rect_area (r : Rect) : N := (rect_w r * rect_h r)%N.

(** [rect.centerx] and the assignments [rect.centerx = v], [rect.y = v]. *)
Definition rect_centerx (r : Rect) : Z := rect_x r + Z.of_N (rect_w r) / 2.
Definition set_centerx (v : Z) (r : Rect) : Rect :=
  mkRect (v - Z.of_N (rect_w r) / 2) (rect_y r) (rect_w r) (rect_h r).
Definition set_y (v : Z) (r : Rect) : Rect :=
  mkRect (rect_x r) v (rect_w r) (rect_h r).

(** Signed length of the intersection of the ranges [lo1, hi1] and
    [lo2, hi2]: positive exactly when they share more than a point. *)
Definition range_overlap (lo1 hi1 lo2 hi2 : Z) : Z :=
  Z.min hi1 hi2 - Z.max lo1 lo2.

(** Modelled from the spec: the overlap detector [overlaps(a_rect, b_rect)]
    is not among the sources (the loop imports it from [utils]).  Section
    4.2: axis-aligned bounding-box intersection, true iff the x-ranges and
    the y-ranges both overlap with non-zero measure. *)
Definition overlaps (a b : Rect) : bool :=
  (0 <? range_overlap (rect_left a) (rect_right a) (rect_left b) (rect_right b))
  && (0 <? range_overlap (rect_top a) (rect_bottom a) (rect_top b) (rect_bottom b)).

(** Two ranges overlap with non-zero measure when some interval [u, v] of
    positive length lies inside both. *)
Definition ranges_share (lo1 hi1 lo2 hi2 : Z) : Prop :=
  exists u v : Z, u < v /\ lo1 <= u /\ v <= hi1 /\ lo2 <= u /\ v <= hi2.

(** A and B touch on an edge: one ends where the other starts. *)
Definition touching (a b : Rect) : Prop :=
  rect_right a = rect_left b \/ rect_right b = rect_left a \/
  rect_bottom a = rect_top b \/ rect_bottom b = rect_top a.

End OverlapDetector.

(** ** Lesson 01, Crazy Robot: the game loop of cot_moc_4.py *)

Module CrazyRobot.

Inductive GameStateType : Type := RUNNING | WON | LOST.

Inductive ItemType : Type := DIAMOND_BLUE | DIAMOND_RED.

(** A sprite image; the loop only hands it to [overlap]. *)
Record Surface : Type := mkSurface {
  surf_width : N;
  surf_height : N }.

(** Modelled from the spec: the classes of the [entities] module are not
    among the sources.  Their fields are the constructor arguments and the
    attributes the loop reads ([x], [y], [image], [hidden], [score],
    [state]); section 3 gives [GameState] a score and a state value drawn
    from RUNNING, WON and LOST that starts as RUNNING and forms a terminal
    state machine: RUNNING to WON, RUNNING to LOST, WON and LOST absorbing.
    [update_score] and [set_hidden] are the assignments their names and
    call sites state. *)
Record GameState : Type := mkGameState {
  score : Z;
  state : GameStateType }.

Definition new_GameState (score0 : Z) : GameState :=
  {| score := score0; state := RUNNING |}.

Definition update_score (new_score : Z) (g : GameState) : GameState :=
  {| score := new_score; state := state g |}.

(** Modelled from the spec: [GameState.update_state] is not among the
    sources.  Section 3: the state leaves RUNNING for the state asked for,
    and WON and LOST are absorbing; the score is not its business. *)
Definition update_state (s : GameStateType) (g : GameState) : GameState :=
  match state g with
  | RUNNING => {| score := score g; state := s |}
  | _ => g
  end.

Record Player : Type := mkPlayer {
  player_x : Z;
  player_y : Z;
  player_image : Surface }.

Record Robot : Type := mkRobot {
  robot_x : Z;
  robot_y : Z;
  robot_dx : Z;
  robot_dy : Z;
  robot_image : Surface }.

Record GameItem : Type := mkGameItem {
  item_x : Z;
  item_y : Z;
  item_type : ItemType;
  hidden : bool;
  item_image : Surface }.

Definition set_hidden (item : GameItem) : GameItem :=
  {| item_x := item_x item; item_y := item_y item;
     item_type := item_type item; hidden := true;
     item_image := item_image item |}.

Record NPC : Type := mkNPC {
  npc_x : Z;
  npc_y : Z;
  npc_image : Surface }.

(** What the loop imports and the sources do not contain: how the player
    and the robots move, and the overlap test of [utils].  [Env] is what
    the host hands to the updates during a tick (keyboard, random draws);
    each update may consume some of it. *)
Class Entities : Type := {
  Env : Type;
  Player_update : Player -> Env -> Player * Env;
  Robot_update : Robot -> Env -> Robot * Env;
  overlap : Z -> Z -> Surface -> Z -> Z -> Surface -> bool }.

(** The module-level variables of the script. *)
Record Game : Type := mkGame {
  player : Player;
  list_robot : list Robot;
  list_item : list GameItem;
  to_mo : NPC;
  game_state : GameState }.

(** What a run shows: lines printed, and frames drawn by the render phase
    (a frame is the scene at the time it is drawn). *)
Inductive Output : Type :=
  | Print (line : string)
  | Frame (scene : Game).

(** The script's state between two iterations of [while running]. *)
Record Machine : Type := mkMachine {
  game : Game;
  running : bool;
  output : list Output }.

Section Loop.
Context `{E : Entities}.

(** What the host supplies at an iteration: whether a QUIT event is
    pending ([pygame.event.peek(pygame.QUIT)]), and the environment
    the updates read. *)
Record Input : Type := mkInput {
  quit : bool;
  env : Env }.

(** [for robot in list_robot: robot.update()] *)
Fixpoint update_robots (robots : list Robot) (e : Env) : list Robot * Env :=
  match robots with
  | [] => ([], e)
  | robot :: rest =>
      let (robot', e1) := Robot_update robot e in
      let (rest', e2) := update_robots rest e1 in
      (robot' :: rest', e2)
  end.

Definition overlap_item (p : Player) (item : GameItem) : bool :=
  overlap (player_x p) (player_y p) (player_image p)
          (item_x item) (item_y item) (item_image item).

Definition overlap_robot (p : Player) (robot : Robot) : bool :=
  overlap (player_x p) (player_y p) (player_image p)
          (robot_x robot) (robot_y robot) (robot_image robot).

Definition overlap_npc (p : Player) (n : NPC) : bool :=
  overlap (player_x p) (player_y p) (player_image p)
          (npc_x n) (npc_y n) (npc_image n).

(** Lines 51-57: the item pickup loop. *)
Fixpoint pickup_items (p : Player) (items : list GameItem) (g : GameState)
  : list GameItem * GameState :=
  match items with
  | [] => ([], g)
  | item :: rest =>
      if negb (hidden item) then
        if overlap_item p item then
          let item' := set_hidden item in
          let new_score := score g + 1 in
          let (rest', g') := pickup_items p rest (update_score new_score g) in
          (item' :: rest', g')
        else
          let (rest', g') := pickup_items p rest g in (item :: rest', g')
      else
        let (rest', g') := pickup_items p rest g in (item :: rest', g')
  end.

(** Lines 59-62: the robot collision loop; it has no [break]. *)
Fixpoint check_robots (p : Player) (robots : list Robot) (g : GameState)
  : GameState * list Output :=
  match robots with
  | [] => (g, [])
  | robot :: rest =>
      if overlap_robot p robot then
        let (g', out) := check_robots p rest (update_state LOST g) in
        (g', Print "YOU LOST!!" :: out)
      else check_robots p rest g
  end.

(** Lines 64-66: the goal check, a plain [if] after the robot loop. *)
Definition check_goal (p : Player) (goal : NPC) (g : GameState)
  : GameState * list Output :=
  if overlap_npc p goal then (update_state WON g, [Print "YOU WON!!"])
  else (g, []).

(** Lines 46-49: the update phase. *)
Definition update_phase (e : Env) (w : Game) : Game :=
  let (p, e1) := Player_update (player w) e in
  let (robots, _) := update_robots (list_robot w) e1 in
  {| player := p; list_robot := robots; list_item := list_item w;
     to_mo := to_mo w; game_state := game_state w |}.

(** Lines 51-66: pickups, then robots, then the goal. *)
Definition collision_phase (w : Game) : Game * list Output :=
  let (items, g1) := pickup_items (player w) (list_item w) (game_state w) in
  let (g2, out_robots) := check_robots (player w) (list_robot w) g1 in
  let (g3, out_goal) := check_goal (player w) (to_mo w) g2 in
  ({| player := player w; list_robot := list_robot w; list_item := items;
      to_mo := to_mo w; game_state := g3 |},
   out_robots ++ out_goal).

(** Lines 45-86: the body of an iteration once the quit check has passed:
    the guarded update and collision phases, then the render phase. *)
Definition tick (e : Env) (w : Game) : Game * list Output :=
  let (w', out) :=
    match state (game_state w) with
    | RUNNING => collision_phase (update_phase e w)
    | _ => (w, [])
    end in
  (w', out ++ [Frame w']).

(** Lines 38-86: one iteration of [while running]. *)
Definition iteration (i : Input) (m : Machine) : Machine :=
  if quit i then
    {| game := game m; running := false; output := output m |}
  else
    let (w', out) := tick (env i) (game m) in
    {| game := w'; running := running m; output := output m ++ out |}.

(** The loop, fed the host's inputs one iteration at a time; it stops
    at the [break]. *)
Fixpoint run (inputs : list Input) (m : Machine) : Machine :=
  match inputs with
  | [] => m
  | i :: rest => if running m then run rest (iteration i m) else m
  end.

(** Lines 12-37: the script's state when the loop is entered. *)
Definition start (w : Game) : Machine :=
  {| game := w; running := true; output := [] |}.

Definition current_score (m : Machine) : Z := score (game_state (game m)).
Definition current_state (m : Machine) : GameStateType :=
  state (game_state (game m)).

(** The item is picked up by a player standing at [p]: it passes both
    tests of lines 52-53. *)
Definition picked (p : Player) (item : GameItem) : bool :=
  negb (hidden item) && overlap_item p item.

Definition pick (p : Player) (item : GameItem) : GameItem :=
  if picked p item then set_hidden item else item.

Definition pickups (p : Player) (items : list GameItem) : Z :=
  Z.of_nat (length (List.filter (picked p) items)).

(** The robots the player standing at [p] collides with. *)
Definition hits (p : Player) (robots : list Robot) : list Robot :=
  List.filter (overlap_robot p) robots.

End Loop.

End CrazyRobot.

(** ** Errors of the entity layer *)

Module Errors.

(** Section 7 of the spec: the two ways a request to the World can fail. *)
Inductive GameError : Type := LookupFailure | InvalidSpawnRequest.

Inductive result (A : Type) : Type :=
  | Ok (a : A)
  | Err (e : GameError).
Arguments Ok {A} a.
Arguments Err {A} e.

#[global] Instance result_ret : MRet result := fun A a => Ok a.
#[global] Instance result_bind : MBind result := fun A B f c =>
  match c with
  | Ok a => f a
  | Err e => Err e
  end.

Definition raises {A : Type} (c : result A) : bool :=
  match c with
  | Ok _ => false
  | Err _ => true
  end.

End Errors.

(** ** The World: the registry of live entities *)

Module Worlds.
Import OverlapDetector Errors.

(** Modelled from the spec: the [EntityType] enumeration ([common.types])
    is not among the sources.  Section 3 lists the kinds; the sources name
    QUESTION_MARK and PLAYER_INVENTORY. *)
Inductive EntityType : Type :=
  | PLAYER | ROBOT | COLLECTABLE_ITEM | FRIENDLY_NPC
  | QUESTION_MARK | PLAYER_INVENTORY.

(** What the World keeps of an entity that others reach through it. *)
Record Entity : Type := mkEntity {
  entity_type : EntityType;
  entity_rect : Rect }.

(** Modelled from the spec: the [World] class ([worlds.world]) is not among
    the sources.  Section 3: an owning collection mapping identifier to
    entity, and the scroll-offset state. *)
Record World : Type := mkWorld {
  entities : gmap Z Entity;
  screen_offset : Z }.

(** What the [config] module supplies and the sources do not contain: the
    type of an NPC's configuration, and the per-kind sizing constants,
    resolved before the loop starts. *)
Class Config : Type := {
  NpcConfig : Type;
  default_rect : EntityType -> Rect }.

Definition with_entities (m : gmap Z Entity) (w : World) : World :=
  {| entities := m; screen_offset := screen_offset w |}.

(** Modelled from the spec: [World.add_entity(kind) -> id] of section 4.1
    creates and registers an entity and returns a fresh identifier; it
    fails only on an unknown kind, which [EntityType] excludes. *)
Definition add_entity `{Config} (kind : EntityType) (w : World)
  : result (Z * World) :=
  let new_id := fresh (dom (entities w)) in
  let e := {| entity_type := kind; entity_rect := default_rect kind |} in
  Ok (new_id, with_entities (<[new_id := e]> (entities w)) w).

(** Modelled from the spec: [World.get_entity(id)] of section 4.1 returns
    the live entity or signals "not found" for a stale identifier. *)
Definition get_entity (id : Z) (w : World) : result Entity :=
  match entities w !! id with
  | Some e => Ok e
  | None => Err LookupFailure
  end.

(** Modelled from the spec: [World.remove_entity(id)] of section 4.1
    deregisters the entity; removing an identifier that is not registered
    is a no-op, not an error. *)
Definition remove_entity (id : Z) (w : World) : result World :=
  Ok (with_entities (delete id (entities w)) w).

(** An assignment through a reference obtained from [get_entity]: the
    entity object lives in the World, so the World sees the new value. *)
Definition store_entity (id : Z) (e : Entity) (w : World) : World :=
  with_entities (<[id := e]> (entities w)) w.

Definition is_live (id : Z) (w : World) : Prop := id ∈ dom (entities w).

End Worlds.

(** ** Events *)

Module Event.

Inductive EventType : Type :=
  | PLAYER_NEAR_NPC | PLAYER_ACTIVATE_NPC | NPC_DIALOGUE_END
  | KEY_DOWN | KEY_UP.

#[global] Instance EventType_eq_dec : EqDecision EventType.
Proof. solve_decision. Defined.

(** Modelled from the spec: the [GameEvent] class ([common.event]) is not
    among the sources.  Section 3: a type, an optional listener identifier
    (absent for a broadcast) and an optional payload. *)
Record GameEvent : Type := mkGameEvent {
  event_type : EventType;
  listener_id : option Z;
  payload : option Z }.

Definition get_listener_id (e : GameEvent) : option Z := listener_id e.

Definition is_type (t : EventType) (e : GameEvent) : bool :=
  bool_decide (event_type e = t).

End Event.

(** ** Lesson 07, checkpoint 2: the friendly NPC of friendly_npc.py *)

Module Npc.
Import OverlapDetector Errors Worlds Event.

Section WithConfig.
Context `{C : Config}.

(** The attributes of a [FriendlyNpc] object.  [self.world] is the World
    handed to [update]; it is threaded next to the record. *)
Record FriendlyNpc : Type := mkFriendlyNpc {
  id : Z;
  rect : Rect;
  npc_config : NpcConfig;
  is_near_player : bool;
  question_mark_id : option Z;
  events : list GameEvent }.

Definition with_events (es : list GameEvent) (n : FriendlyNpc) : FriendlyNpc :=
  {| id := id n; rect := rect n; npc_config := npc_config n;
     is_near_player := is_near_player n;
     question_mark_id := question_mark_id n; events := es |}.

Definition with_is_near_player (b : bool) (n : FriendlyNpc) : FriendlyNpc :=
  {| id := id n; rect := rect n; npc_config := npc_config n;
     is_near_player := b;
     question_mark_id := question_mark_id n; events := events n |}.

Definition with_question_mark_id (q : option Z) (n : FriendlyNpc) : FriendlyNpc :=
  {| id := id n; rect := rect n; npc_config := npc_config n;
     is_near_player := is_near_player n;
     question_mark_id := q; events := events n |}.

(** Modelled from the spec: [BaseEntity.update] ([game_entities.base]) is
    not among the sources.  Section 4.1 and 4.3: an entity's update
    receives the tick's events and the World; the methods below read them
    back as [self.events] and [self.world]. *)
Definition base_update (es : list GameEvent) (n : FriendlyNpc) : FriendlyNpc :=
  with_events es n.

(** [event.get_listener_id() == self.id]: [None] equals no identifier. *)
Definition addressed_to (my_id : Z) (e : GameEvent) : bool :=
  match get_listener_id e with
  | Some l => l =? my_id
  | None => false
  end.

(** Lines 42-47: the body of the [for] loop, on the flag. *)
Fixpoint handle_loop (my_id : Z) (es : list GameEvent) (flag : bool) : bool :=
  match es with
  | [] => flag
  | event :: rest =>
      if negb (addressed_to my_id event) then handle_loop my_id rest flag
      else if is_type PLAYER_NEAR_NPC event then handle_loop my_id rest true
      else handle_loop my_id rest flag
  end.

(** Lines 40-47. *)
Definition _handle_events (n : FriendlyNpc) : FriendlyNpc :=
  let n1 := with_is_near_player false n in
  with_is_near_player (handle_loop (id n1) (events n1) (is_near_player n1)) n1.

(** Python truth value of an [Optional[int]]: [None] and [0] are false. *)
Definition truthy (o : option Z) : bool :=
  match o with
  | Some i => negb (i =? 0)
  | None => false
  end.

(** Lines 49-54. *)
Definition _highlight (s : FriendlyNpc * World) : result (FriendlyNpc * World) :=
  let (n, w) := s in
  if negb (truthy (question_mark_id n)) then
    '(qid, w1) ← add_entity QUESTION_MARK w;
    new_entity ← get_entity qid w1;
    let r1 := set_centerx (rect_centerx (rect n)) (entity_rect new_entity) in
    let r2 := set_y (rect_y (rect n) - 80) r1 in
    let new_entity' := {| entity_type := entity_type new_entity;
                          entity_rect := r2 |} in
    mret (with_question_mark_id (Some qid) n, store_entity qid new_entity' w1)
  else mret (n, w).

(** Lines 56-59. *)
Definition _unhightlight (s : FriendlyNpc * World) : result (FriendlyNpc * World) :=
  let (n, w) := s in
  match question_mark_id n with
  | Some qid =>
      if truthy (Some qid) then
        w1 ← remove_entity qid w;
        mret (with_question_mark_id None n, w1)
      else mret (n, w)
  | None => mret (n, w)
  end.

(** Lines 32-38. *)
Definition update (es : list GameEvent) (s : FriendlyNpc * World)
  : result (FriendlyNpc * World) :=
  let (n, w) := s in
  let n1 := base_update es n in
  let n2 := _handle_events n1 in
  if is_near_player n2 then _highlight (n2, w) else _unhightlight (n2, w).

End WithConfig.

End Npc.

(** ** Scenarios: concrete worlds for the spec's test cases *)

Module Scenarios.
Import OverlapDetector CrazyRobot Worlds Event Npc.

Definition bounds (x y : Z) (image : Surface) : Rect :=
  mkRect x y (surf_width image) (surf_height image).

(** Modelled from the spec: [utils.overlap] is not among the sources.
    Section 3 and 4.2: an entity's bounding rectangle is derived from its
    position and its size, and two entities collide when their bounds
    overlap. *)
Definition overlap_bounds (x1 y1 : Z) (image1 : Surface)
                          (x2 y2 : Z) (image2 : Surface) : bool :=
  overlaps (bounds x1 y1 image1) (bounds x2 y2 image2).

(** A world in which nothing moves, with the bounding-box overlap test. *)
#[local] Instance Still : Entities := {|
  Env := unit;
  Player_update := fun p e => (p, e);
  Robot_update := fun r e => (r, e);
  overlap := overlap_bounds |}.

Definition ten_by_ten : Surface := mkSurface 10 10.

Definition no_quit : @Input Still := {| quit := false; env := tt |}.
Definition do_quit : @Input Still := {| quit := true; env := tt |}.

(** Scenario 1: player at (0,0), item at (5,5), both 10 by 10; the
    robot and the goal are far away. *)
Definition pickup_game : Game := {|
  player := mkPlayer 0 0 ten_by_ten;
  list_robot := [mkRobot 500 500 1 1 ten_by_ten];
  list_item := [mkGameItem 5 5 DIAMOND_BLUE false ten_by_ten];
  to_mo := mkNPC 1000 50 ten_by_ten;
  game_state := new_GameState 0 |}.

(** Scenario 2: the player overlaps a robot and the goal at once. *)
Definition both_game : Game := {|
  player := mkPlayer 0 0 ten_by_ten;
  list_robot := [mkRobot 5 5 0 0 ten_by_ten];
  list_item := [];
  to_mo := mkNPC 3 3 ten_by_ten;
  game_state := new_GameState 0 |}.

(** A game already lost, with the player still on the goal and an item. *)
Definition lost_game : Game := {|
  player := mkPlayer 0 0 ten_by_ten;
  list_robot := [mkRobot 5 5 0 0 ten_by_ten];
  list_item := [mkGameItem 5 5 DIAMOND_RED false ten_by_ten];
  to_mo := mkNPC 3 3 ten_by_ten;
  game_state := {| score := 4; state := LOST |} |}.

(** A configuration in which every kind of entity is 32 by 32. *)
#[local] Instance Tiles : Config := {|
  NpcConfig := unit;
  default_rect := fun _ => mkRect 0 0 32 32 |}.

(** Scenario 3: NPC #8, and an event addressed to NPC #7. *)
Definition npc8 : FriendlyNpc := {|
  id := 8; rect := mkRect 100 100 32 64; npc_config := tt;
  is_near_player := true; question_mark_id := None; events := [] |}.

Definition near_npc7 : GameEvent :=
  {| event_type := PLAYER_NEAR_NPC; listener_id := Some 7; payload := None |}.

Definition near_npc8 : GameEvent :=
  {| event_type := PLAYER_NEAR_NPC; listener_id := Some 8; payload := None |}.

Definition empty_world : World := {| entities := ∅; screen_offset := 0 |}.

(** A world whose only entity, a question mark, has identifier 7. *)
Definition one_mark_world : World :=
  {| entities := {[ 7 := mkEntity QUESTION_MARK (mkRect 0 0 32 32) ]};
     screen_offset := 0 |}.

End Scenarios.

(** ** Crazy Robot: the cast of the script and what a run shows *)

Module CrazyRobotScript.
Import CrazyRobot.

Section Sprites.
(** The images the entity classes load; the sources do not contain them. *)
Context (player_sprite robot_sprite npc_sprite : Surface)
        (item_sprite : ItemType -> Surface).

(** The constructor calls of lines 12-32; an item starts visible. *)
Definition new_Player (x y : Z) : Player := mkPlayer x y player_sprite.
Definition new_Robot (x y dx dy : Z) : Robot := mkRobot x y dx dy robot_sprite.
Definition new_GameItem (x y : Z) (t : ItemType) : GameItem :=
  mkGameItem x y t false (item_sprite t).
Definition new_NPC (x y : Z) : NPC := mkNPC x y npc_sprite.

(** Lines 12-35: the module-level variables as the script initialises them. *)
Definition script_game : Game := {|
  player := new_Player 350 200;
  list_robot := [
    new_Robot 500 500 1 1;
    new_Robot 50 50 (-2) 2;
    new_Robot 50 10 3 5;
    new_Robot 500 0 9 5;
    new_Robot 100 50 3 10;
    new_Robot 590 10 (-8) 1 ];
  list_item := [
    new_GameItem 600 500 DIAMOND_BLUE;
    new_GameItem 800 500 DIAMOND_RED;
    new_GameItem 1000 400 DIAMOND_RED;
    new_GameItem 100 500 DIAMOND_BLUE;
    new_GameItem 880 700 DIAMOND_RED;
    new_GameItem 500 400 DIAMOND_RED ];
  to_mo := new_NPC 1000 50;
  game_state := new_GameState 0 |}.

End Sprites.

(** Observations on the output and on the item list. *)
Definition is_frame (o : Output) : bool :=
  match o with
  | Frame _ => true
  | Print _ => false
  end.

Definition frames (out : list Output) : nat := length (List.filter is_frame out).

(** The number of items still to be collected. *)
Definition visible (items : list GameItem) : Z :=
  Z.of_nat (length (List.filter (fun item => negb (hidden item)) items)).

(** [b] is [a], or [a] after [set_hidden]. *)
Definition same_or_hidden (a b : GameItem) : Prop :=
  b = a \/ b = set_hidden a.

End CrazyRobotScript.

(** ** Configuration constants and rectangle assignments *)

Module Geometry.
Import OverlapDetector.

(** What [config.GameConfig] supplies and the sources do not contain. *)
Class GameConfig : Type := {
  TILE_SIZE : Z;
  WIDTH : Z;
  PLAYER_SOFT_EDGE_WIDTH : Z }.

(** A rectangle moved to the horizontal position [v], its size kept. *)
Definition set_x (v : Z) (r : Rect) : Rect :=
  mkRect v (rect_y r) (rect_w r) (rect_h r).

End Geometry.

(** ** pygame rectangles: four C ints *)

Module PygameRect.
Import OverlapDetector Geometry.

(** A [pygame.Rect] stores x, y, w and h as C ints (32 bits).  Reading a
    derived attribute ([right], [bottom], [centerx]) adds C ints, so the
    sum wraps around; assigning to an attribute first converts the Python
    integer to a C int and refuses one that does not fit (TypeError,
    "invalid rect assignment"), then stores a position computed on C
    ints. *)
Definition INT_MIN : Z := -2147483648.
Definition INT_MAX : Z := 2147483647.

Definition in_int (v : Z) : bool := (INT_MIN <=? v) && (v <=? INT_MAX).

(** The C int that the mathematical result [v] ends up as. *)
Definition wrap (v : Z) : Z := (v - INT_MIN) mod 4294967296 + INT_MIN.

(** [rect.right], [rect.bottom], [rect.centerx]. *)
Definition get_right (r : Rect) : Z := wrap (rect_x r + Z.of_N (rect_w r)).
Definition get_bottom (r : Rect) : Z := wrap (rect_y r + Z.of_N (rect_h r)).
Definition get_centerx (r : Rect) : Z := wrap (rect_x r + Z.of_N (rect_w r) / 2).

(** [rect.x = v], [rect.y = v], [rect.bottom = v], [rect.centerx = v];
    [None] is the TypeError, which leaves the rectangle as it was. *)
Definition assign_x (v : Z) (r : Rect) : option Rect :=
  if in_int v then Some (set_x v r) else None.

Definition assign_y (v : Z) (r : Rect) : option Rect :=
  if in_int v then Some (set_y v r) else None.

Definition assign_bottom (v : Z) (r : Rect) : option Rect :=
  if in_int v then Some (set_y (wrap (v - Z.of_N (rect_h r))) r) else None.

Definition assign_centerx (v : Z) (r : Rect) : option Rect :=
  if in_int v then Some (set_x (wrap (v - Z.of_N (rect_w r) / 2)) r) else None.

End PygameRect.

(** ** Lesson 07: the constructor of the friendly NPC *)

Module NpcInit.
Import OverlapDetector Worlds Event Npc Geometry PygameRect.

Section WithConfig.
Context `{C : Config} `{G : GameConfig}.

(** Lines 22-30.  [base] is the object as [BaseEntity.__init__] leaves it
    (identifier and rectangle at the spawn position).  [None]: the
    assignment of line 26 raised TypeError and no NPC is constructed. *)
Definition __init__ (config : NpcConfig) (base : FriendlyNpc) : option FriendlyNpc :=
  match assign_bottom (rect_y (rect base) + TILE_SIZE) (rect base) with
  | Some r =>
      Some {| id := id base;
              rect := r;
              npc_config := config;
              is_near_player := false;
              question_mark_id := None;
              events := events base |}
  | None => None
  end.

End WithConfig.

End NpcInit.

(** ** Lesson 07: the friendly NPC on pygame rectangles *)

Module NpcOnPygame.
Import OverlapDetector Errors Worlds Event Npc Geometry PygameRect.

Inductive PyError : Type :=
  | TypeError
  | WorldError (e : GameError).

(** How a method ends: it returns, or it raises; either way the objects
    are left in some state, since the assignments made before a raise
    stay. *)
Inductive outcome (S : Type) : Type :=
  | Returns (s : S)
  | Raises (e : PyError) (s : S).
Arguments Returns {S} s.
Arguments Raises {S} e s.

Definition final_state {S : Type} (o : outcome S) : S :=
  match o with
  | Returns s => s
  | Raises _ s => s
  end.

Section WithConfig.
Context `{C : Config}.

Definition with_rect (r : Rect) (e : Entity) : Entity :=
  {| entity_type := entity_type e; entity_rect := r |}.

(** Lines 49-54 of friendly_npc.py, statement by statement, with the two
    rectangle assignments as pygame carries them out. *)
Definition _highlight (s : FriendlyNpc * World) : outcome (FriendlyNpc * World) :=
  let (n, w) := s in
  if negb (truthy (question_mark_id n)) then
    match add_entity QUESTION_MARK w with
    | Err e => Raises (WorldError e) (n, w)
    | Ok (qid, w1) =>
        let n1 := with_question_mark_id (Some qid) n in
        match get_entity qid w1 with
        | Err e => Raises (WorldError e) (n1, w1)
        | Ok new_entity =>
            match assign_centerx (get_centerx (rect n)) (entity_rect new_entity) with
            | None => Raises TypeError (n1, w1)
            | Some r1 =>
                let w2 := store_entity qid (with_rect r1 new_entity) w1 in
                match assign_y (rect_y (rect n) - 80) r1 with
                | None => Raises TypeError (n1, w2)
                | Some r2 => Returns (n1, store_entity qid (with_rect r2 new_entity) w2)
                end
            end
        end
    end
  else Returns (n, w).

(** Lines 56-59: no rectangle is touched. *)
Definition _unhightlight (s : FriendlyNpc * World) : outcome (FriendlyNpc * World) :=
  let (n, w) := s in
  match question_mark_id n with
  | Some qid =>
      if truthy (Some qid) then
        match remove_entity qid w with
        | Err e => Raises (WorldError e) (n, w)
        | Ok w1 => Returns (with_question_mark_id None n, w1)
        end
      else Returns (n, w)
  | None => Returns (n, w)
  end.

(** Lines 32-38. *)
Definition update (es : list GameEvent) (s : FriendlyNpc * World)
  : outcome (FriendlyNpc * World) :=
  let (n, w) := s in
  let n1 := base_update es n in
  let n2 := _handle_events n1 in
  if is_near_player n2 then _highlight (n2, w) else _unhightlight (n2, w).

(** The question mark after line 53 (centred on the NPC, at its default
    height) and after line 54 (80 above the NPC's top). *)
Definition centred_mark (n : FriendlyNpc) : Entity :=
  mkEntity QUESTION_MARK
    (set_x (wrap (get_centerx (rect n)
                  - Z.of_N (rect_w (default_rect QUESTION_MARK)) / 2))
           (default_rect QUESTION_MARK)).

Definition placed_mark (n : FriendlyNpc) : Entity :=
  with_rect (set_y (rect_y (rect n) - 80) (entity_rect (centred_mark n)))
            (centred_mark n).

End WithConfig.

End NpcOnPygame.

(** ** Lesson 09, checkpoint 3: the player of player.py *)

Module PlayerEntity.
Import OverlapDetector Errors Worlds Event Geometry PygameRect.

(** pygame 2 key codes. *)
Definition K_SPACE : Z := 32.
Definition K_a : Z := 97.
Definition K_d : Z := 100.
Definition K_e : Z := 101.
Definition K_w : Z := 119.
Definition K_RIGHT : Z := 1073741903.
Definition K_LEFT : Z := 1073741904.
Definition K_UP : Z := 1073741906.

Definition key_in (keys : list Z) (e : GameEvent) : bool :=
  match payload e with
  | Some k => existsb (Z.eqb k) keys
  | None => false
  end.

(** Modelled from the spec: [GameEvent.is_key_down] and [is_key_up]
    ([common.event]) are not among the sources.  Section 6: the input
    source produces key-down and key-up events with a key code; the event
    carries it as its payload. *)
Definition is_key_down (keys : list Z) (e : GameEvent) : bool :=
  is_type KEY_DOWN e && key_in keys e.

Definition is_key_up (keys : list Z) (e : GameEvent) : bool :=
  is_type KEY_UP e && key_in keys e.

(** What the player reads of a friendly NPC it got from the World. *)
Record NpcRef : Type := mkNpcRef {
  npc_id : Z;
  npc_rect : Rect;
  has_dialogue : bool }.

Section WithMotion.
Context {Extra : Type}.

(** The attributes of [AnimatedEntity] the player reads and writes, and
    whatever else that class keeps. *)
Record AnimatedEntity : Type := mkAnimated {
  rect : Rect;
  dx : Z;
  extra : Extra }.

(** What [entities.animated_entity] supplies and the sources do not
    contain: the movement commands and the collision test. *)
Class Motion : Type := {
  move_left : bool -> AnimatedEntity -> AnimatedEntity;
  move_right : bool -> AnimatedEntity -> AnimatedEntity;
  jump : AnimatedEntity -> AnimatedEntity;
  collide : Rect -> Rect -> bool }.

Context `{M : Motion} `{G : GameConfig}.

(** The attributes of a [Player] object (lines 25-32); [body] is the part
    inherited from [AnimatedEntity]. *)
Record Player : Type := mkPlayer {
  body : AnimatedEntity;
  npc_near_by : option NpcRef;
  talking : bool;
  inventory : list (Z * Entity);
  inventory_entity_id : option Z;
  events : list GameEvent }.

Definition with_body (b : AnimatedEntity) (p : Player) : Player :=
  {| body := b; npc_near_by := npc_near_by p; talking := talking p;
     inventory := inventory p; inventory_entity_id := inventory_entity_id p;
     events := events p |}.

Definition with_npc_near_by (o : option NpcRef) (p : Player) : Player :=
  {| body := body p; npc_near_by := o; talking := talking p;
     inventory := inventory p; inventory_entity_id := inventory_entity_id p;
     events := events p |}.

Definition with_talking (b : bool) (p : Player) : Player :=
  {| body := body p; npc_near_by := npc_near_by p; talking := b;
     inventory := inventory p; inventory_entity_id := inventory_entity_id p;
     events := events p |}.

Definition with_inventory (l : list (Z * Entity)) (p : Player) : Player :=
  {| body := body p; npc_near_by := npc_near_by p; talking := talking p;
     inventory := l; inventory_entity_id := inventory_entity_id p;
     events := events p |}.

(** [GameEvent(type, listener_id=l).post()]: the event joins the queue. *)
Definition post (t : EventType) (l : Z) (queue : list GameEvent) : list GameEvent :=
  queue ++ [mkGameEvent t (Some l) None].

(** Lines 76-82. *)
Definition _handle_activation (s : Player * list GameEvent)
  : Player * list GameEvent :=
  let (p, queue) := s in
  match npc_near_by p with
  | None => (p, queue)
  | Some npc =>
      if negb (has_dialogue npc) then (p, queue)
      else (with_talking true p, post PLAYER_ACTIVATE_NPC (npc_id npc) queue)
  end.

(** Lines 58-74: the body of the [for] loop, for one event. *)
Definition handle_event (e : GameEvent) (s : Player * list GameEvent)
  : Player * list GameEvent :=
  let (p, queue) := s in
  let p1 :=
    if negb (talking p) then
      if is_key_down [K_LEFT; K_a] e then with_body (move_left true (body p)) p
      else if is_key_down [K_RIGHT; K_d] e then with_body (move_right true (body p)) p
      else if is_key_down [K_UP; K_SPACE; K_w] e then with_body (jump (body p)) p
      else p
    else p in
  if is_key_up [K_LEFT; K_a] e then (with_body (move_left false (body p1)) p1, queue)
  else if is_key_up [K_RIGHT; K_d] e then (with_body (move_right false (body p1)) p1, queue)
  else if is_key_up [K_e] e then _handle_activation (p1, queue)
  else if is_type NPC_DIALOGUE_END e then (with_talking false p1, queue)
  else (p1, queue).

Fixpoint handle_loop (es : list GameEvent) (s : Player * list GameEvent)
  : Player * list GameEvent :=
  match es with
  | [] => s
  | e :: rest => handle_loop rest (handle_event e s)
  end.

(** Lines 52-74. *)
Definition _handle_events (s : Player * list GameEvent) : Player * list GameEvent :=
  handle_loop (events (fst s)) s.

(** Lines 86-91: the [for] loop with its [break]. *)
Fixpoint near_loop (npcs : list NpcRef) (s : Player * list GameEvent)
  : Player * list GameEvent :=
  match npcs with
  | [] => s
  | npc :: rest =>
      let (p, queue) := s in
      if collide (rect (body p)) (npc_rect npc) then
        (with_npc_near_by (Some npc) p, post PLAYER_NEAR_NPC (npc_id npc) queue)
      else near_loop rest s
  end.

(** Lines 84-91; [npcs] is what [self.world.get_friendly_npcs()] yields. *)
Definition _update_npc_near_by (npcs : list NpcRef) (s : Player * list GameEvent)
  : Player * list GameEvent :=
  let (p, queue) := s in
  near_loop npcs (with_npc_near_by None p, queue).

(** Lines 98-101: the body of the loop over the collectable tiles. *)
Fixpoint pick_loop (tiles : list (Z * Entity)) (s : Player * World)
  : result (Player * World) :=
  match tiles with
  | [] => mret s
  | tile :: rest =>
      let (p, w) := s in
      if collide (rect (body p)) (entity_rect (snd tile)) then
        w1 ← remove_entity (fst tile) w;
        pick_loop rest (with_inventory (inventory p ++ [tile]) p, w1)
      else pick_loop rest s
  end.

(** Lines 93-102; [tiles] is what [self.world.get_collectable_tiles()]
    yields, each entity with its identifier. *)
Definition _pick_item_near_by (tiles : list (Z * Entity)) (s : Player * World)
  : result (Player * World) :=
  pick_loop tiles s.

(** Lines 108-118: whether the step is to be undone and the World
    scrolled.  [at_left_most] is the answer of
    [self.world.at_left_most()]; [rect.right] is read as pygame computes
    it. *)
Definition at_an_edge (at_left_most : bool) (p : Player) : bool :=
  let r := rect (body p) in
  let at_right_edge := WIDTH <=? get_right r in
  let at_right_soft_edge := WIDTH - PLAYER_SOFT_EDGE_WIDTH <? get_right r in
  let at_left_edge := rect_left r <=? 0 in
  let at_left_soft_edge := rect_left r <? PLAYER_SOFT_EDGE_WIDTH in
  at_left_edge
  || at_right_edge
  || (at_left_soft_edge && negb at_left_most)
  || at_right_soft_edge.

(** Lines 104-123.  The second component is the argument passed to
    [self.world.update_screen_offset]; [None]: the assignment of line 120
    raised TypeError, the player is as it was and
    [update_screen_offset] is not called. *)
Definition _update_screen_offset (at_left_most : bool) (p : Player)
  : option (Player * Z) :=
  if at_an_edge at_left_most p then
    let b := body p in
    match assign_x (rect_x (rect b) - dx b) (rect b) with
    | Some r => Some (with_body {| rect := r; dx := dx b; extra := extra b |} p, - dx b)
    | None => None
    end
  else Some (p, 0).

End WithMotion.

End PlayerEntity.

(** ** What an NPC is told, and where its question mark goes *)

Module NpcObservations.
Import OverlapDetector Worlds Event Npc.

Section WithConfig.
Context `{C : Config}.

(** The events hold a PLAYER_NEAR_NPC event addressed to [n]. *)
Definition hears (n : FriendlyNpc) (es : list GameEvent) : Prop :=
  exists e : GameEvent,
    e ∈ es /\ event_type e = PLAYER_NEAR_NPC /\ get_listener_id e = Some (id n).


(** The entity lines 51-54 leave in the World: a question mark of the
    configured size, centred on the NPC, 80 above its top. *)
Definition question_mark_for (n : FriendlyNpc) : Entity :=
  mkEntity QUESTION_MARK
    (set_y (rect_y (rect n) - 80)
       (set_centerx (rect_centerx (rect n)) (default_rect QUESTION_MARK))).

(** The entity after an update that delivered [es]: only the stored
    events, the flag and the question mark identifier can differ. *)
Definition updated (es : list GameEvent) (flag : bool) (q : option Z)
                   (n : FriendlyNpc) : FriendlyNpc :=
  {| id := id n; rect := rect n; npc_config := npc_config n;
     is_near_player := flag; question_mark_id := q; events := es |}.

End WithConfig.

End NpcObservations.

(** ** Scenarios for the NPC's question mark and for the player *)

Module MoreScenarios.
Import OverlapDetector Worlds Event Npc Geometry PlayerEntity Scenarios.
#[local] Existing Instance Tiles.


(** NPC #8 holding the question mark 7, and holding the question mark 0. *)
Definition npc8_with_mark : FriendlyNpc (C := Tiles) := {|
  Npc.id := 8; Npc.rect := mkRect 100 100 32 64; npc_config := tt;
  is_near_player := true; question_mark_id := Some 7; Npc.events := [] |}.


Definition broadcast_near : GameEvent :=
  {| event_type := PLAYER_NEAR_NPC; listener_id := None; payload := None |}.

(** An 800 wide screen with 32 wide tiles and soft edges of 100. *)
#[local] Instance Screen : GameConfig := {|
  TILE_SIZE := 32;
  WIDTH := 800;
  PLAYER_SOFT_EDGE_WIDTH := 100 |}.

(** A player that walks 5 per tick, with bounding-box collisions. *)
#[local] Instance Walk : Motion (Extra := unit) := {|
  move_left := fun on a => mkAnimated (rect a) (if on then -5 else 0) (extra a);
  move_right := fun on a => mkAnimated (rect a) (if on then 5 else 0) (extra a);
  jump := fun a => a;
  collide := overlaps |}.

Definition shopkeeper : NpcRef := mkNpcRef 8 (mkRect 110 100 32 64) true.
Definition bystander : NpcRef := mkNpcRef 7 (mkRect 600 100 32 64) false.

Definition key (t : EventType) (k : Z) : GameEvent :=
  {| event_type := t; listener_id := None; payload := Some k |}.

Definition dialogue_end : GameEvent :=
  {| event_type := NPC_DIALOGUE_END; listener_id := None; payload := None |}.

(** A player standing at x = 100, next to the shopkeeper. *)
Definition hero : Player (Extra := unit) := {|
  body := mkAnimated (mkRect 100 100 32 64) 0 tt;
  npc_near_by := Some shopkeeper;
  talking := false;
  inventory := [];
  inventory_entity_id := None;
  PlayerEntity.events := [] |}.

Definition talking_hero : Player (Extra := unit) := with_talking true hero.

(** A player walking right at x = 700, past the right soft edge. *)
Definition hero_at_the_right : Player (Extra := unit) :=
  with_body (mkAnimated (mkRect 700 100 32 64) 5 tt) hero.

(** Crazy Robot: the player overlaps an item and a robot at once. *)
Definition crowded_game : CrazyRobot.Game := {|
  CrazyRobot.player := CrazyRobot.mkPlayer 0 0 ten_by_ten;
  CrazyRobot.list_robot := [CrazyRobot.mkRobot 5 5 0 0 ten_by_ten];
  CrazyRobot.list_item :=
    [CrazyRobot.mkGameItem 5 5 CrazyRobot.DIAMOND_RED false ten_by_ten];
  CrazyRobot.to_mo := CrazyRobot.mkNPC 1000 50 ten_by_ten;
  CrazyRobot.game_state := CrazyRobot.new_GameState 0 |}.

(** Crazy Robot: the player overlaps the goal only. *)
Definition goal_game : CrazyRobot.Game := {|
  CrazyRobot.player := CrazyRobot.mkPlayer 0 0 ten_by_ten;
  CrazyRobot.list_robot := [CrazyRobot.mkRobot 500 500 0 0 ten_by_ten];
  CrazyRobot.list_item := [];
  CrazyRobot.to_mo := CrazyRobot.mkNPC 3 3 ten_by_ten;
  CrazyRobot.game_state := CrazyRobot.new_GameState 0 |}.

(** A player whose right edge is past the largest C int. *)
Definition hero_at_the_end_of_the_ints : Player (Extra := unit) :=
  with_body (mkAnimated (mkRect 2147483637 100 32 64) 5 tt) hero.

(** A player at the smallest C int, walking left. *)
Definition hero_at_the_start_of_the_ints : Player (Extra := unit) :=
  with_body (mkAnimated (mkRect (-2147483648) 100 32 64) 1 tt) hero.

(** NPC #8 at the top of the C int range, where its top less 80 is no C int. *)
Definition npc8_at_the_top : FriendlyNpc (C := Tiles) := {|
  Npc.id := 8; Npc.rect := mkRect 100 (-2147483600) 32 64; npc_config := tt;
  is_near_player := false; question_mark_id := None; Npc.events := [] |}.

(** NPC #8 as [BaseEntity.__init__] leaves it when spawned at the bottom of
    the C int range. *)
Definition npc8_spawned_low : FriendlyNpc (C := Tiles) := {|
  Npc.id := 8; Npc.rect := mkRect 0 (-2147483638) 32 64; npc_config := tt;
  is_near_player := false; question_mark_id := None; Npc.events := [] |}.

(** A player in the middle of the screen. *)
Definition hero_in_the_middle : Player (Extra := unit) :=
  with_body (mkAnimated (mkRect 400 100 32 64) 5 tt) hero.

End MoreScenarios.

(* ===================================================================== *)
(** * Part II: properties                                                 *)
(* ===================================================================== *)

(** ** The overlap detector *)

Module OverlapProps.
Import OverlapDetector.

Lemma range_overlap_sym (lo1 hi1 lo2 hi2 : Z) :
  range_overlap lo1 hi1 lo2 hi2 = range_overlap lo2 hi2 lo1 hi1.
Proof. unfold range_overlap. lia. Qed.

Lemma range_overlap_pos_iff (lo1 hi1 lo2 hi2 : Z) :
  0 < range_overlap lo1 hi1 lo2 hi2 <-> ranges_share lo1 hi1 lo2 hi2.
Proof.
  unfold range_overlap, ranges_share. split.
  - intros Hpos. exists (Z.max lo1 lo2), (Z.min hi1 hi2). lia.
  - intros (u & v & Huv & ?). lia.
Qed.

Lemma overlaps_true_iff (a b : Rect) :
  overlaps a b = true <->
  0 < range_overlap (rect_left a) (rect_right a) (rect_left b) (rect_right b) /\
  0 < range_overlap (rect_top a) (rect_bottom a) (rect_top b) (rect_bottom b).
Proof.
  unfold overlaps. rewrite andb_true_iff, !Z.ltb_lt. reflexivity.
Qed.

Lemma rect_right_ge (r : Rect) : rect_left r <= rect_right r.
Proof. unfold rect_left, rect_right. lia. Qed.

Lemma rect_bottom_ge (r : Rect) : rect_top r <= rect_bottom r.
Proof. unfold rect_top, rect_bottom. lia. Qed.

(** C7. Rectangles that touch on an edge (one's right is the other's left,
    or one's bottom is the other's top) do not overlap; and [overlaps] is
    true exactly when the x-ranges and the y-ranges both share an interval
    of positive length. *)
Theorem overlaps_touching_false_and_iff_nonzero_measure (a b : Rect) :
  (touching a b -> overlaps a b = false) /\
  (overlaps a b = true <->
     ranges_share (rect_left a) (rect_right a) (rect_left b) (rect_right b) /\
     ranges_share (rect_top a) (rect_bottom a) (rect_top b) (rect_bottom b)).
Proof.
  split.
  - intros Htouch. apply not_true_is_false. rewrite overlaps_true_iff.
    pose proof (rect_right_ge a). pose proof (rect_right_ge b).
    pose proof (rect_bottom_ge a). pose proof (rect_bottom_ge b).
    unfold touching in Htouch. unfold range_overlap. lia.
  - rewrite overlaps_true_iff, !range_overlap_pos_iff. reflexivity.
Qed.

Lemma overlaps_touching_witness :
  touching (mkRect 0 0 10 10) (mkRect 10 0 10 10) /\
  overlaps (mkRect 0 0 10 10) (mkRect 10 0 10 10) = false.
Proof.
  split.
  - left. reflexivity.
  - apply (overlaps_touching_false_and_iff_nonzero_measure
             (mkRect 0 0 10 10) (mkRect 10 0 10 10)).
    left. reflexivity.
Defined.

(** C8. [overlaps] is symmetric, and every rectangle of positive area
    overlaps itself. *)
Theorem overlaps_symmetric_and_reflexive (a b : Rect) :
  overlaps a b = overlaps b a /\
  ((0 < rect_area a)%N -> overlaps a a = true).
Proof.
  split.
  - unfold overlaps.
    rewrite (range_overlap_sym (rect_left a)), (range_overlap_sym (rect_top a)).
    reflexivity.
  - intros Harea. apply overlaps_true_iff.
    unfold rect_area in Harea.
    unfold range_overlap, rect_left, rect_right, rect_top, rect_bottom.
    assert (0 < rect_w a)%N by (destruct (rect_w a); [simpl in Harea|]; lia).
    assert (0 < rect_h a)%N by (destruct (rect_h a); [rewrite N.mul_0_r in Harea|]; lia).
    lia.
Qed.

Lemma overlaps_symmetric_and_reflexive_witness :
  overlaps (mkRect 0 0 10 10) (mkRect 5 5 10 10)
    = overlaps (mkRect 5 5 10 10) (mkRect 0 0 10 10) /\
  overlaps (mkRect 0 0 10 10) (mkRect 0 0 10 10) = true.
Proof.
  destruct (overlaps_symmetric_and_reflexive
              (mkRect 0 0 10 10) (mkRect 5 5 10 10)) as [Hsym Hrefl].
  split; [exact Hsym | apply Hrefl; reflexivity].
Defined.

End OverlapProps.

(** ** The game loop of Crazy Robot *)

Module LoopProps.
Import CrazyRobot.

Section WithEntities.
Context `{E : Entities}.

(** *** The pickup loop *)

Lemma pickup_items_items (p : Player) (items : list GameItem) (g : GameState) :
  fst (pickup_items p items g) = map (pick p) items.
Proof.
  revert g. induction items as [|item rest IH]; intros g; simpl; [reflexivity|].
  unfold pick at 1, picked.
  destruct (hidden item); simpl.
  - specialize (IH g). destruct (pickup_items p rest g). simpl in *. congruence.
  - destruct (overlap_item p item).
    + specialize (IH (update_score (score g + 1) g)).
      destruct (pickup_items p rest _). simpl in *. congruence.
    + specialize (IH g). destruct (pickup_items p rest g). simpl in *. congruence.
Qed.

Lemma pickup_items_game_state (p : Player) (items : list GameItem) (g : GameState) :
  snd (pickup_items p items g)
  = update_score (score g + pickups p items) g.
Proof.
  unfold pickups.
  revert g. induction items as [|item rest IH]; intros g; simpl.
  - destruct g. unfold update_score. simpl. f_equal. lia.
  - unfold picked at 1.
    destruct (hidden item); simpl.
    + specialize (IH g). destruct (pickup_items p rest g). simpl in *. exact IH.
    + destruct (overlap_item p item).
      * specialize (IH (update_score (score g + 1) g)).
        destruct (pickup_items p rest _). simpl in *. rewrite IH.
        unfold update_score. simpl. f_equal. lia.
      * specialize (IH g). destruct (pickup_items p rest g). simpl in *. exact IH.
Qed.

Lemma pickups_nonneg (p : Player) (items : list GameItem) : 0 <= pickups p items.
Proof. unfold pickups. lia. Qed.

(** Taking one item out of the list takes its own pickup, and nothing
    else, out of the count. *)
Lemma pickups_delete (p : Player) (items : list GameItem) (k : nat) (item : GameItem) :
  items !! k = Some item ->
  pickups p items
  = (if picked p item then 1 else 0) + pickups p (delete k items).
Proof.
  unfold pickups. revert k.
  induction items as [|x rest IH]; intros k Hk; [discriminate|].
  destruct k as [|k]; simpl in Hk.
  - injection Hk as ->. simpl. destruct (picked p item); simpl length; lia.
  - specialize (IH k Hk).
    change (delete (S k) (x :: rest)) with (x :: delete k rest). simpl.
    destruct (picked p item), (picked p x); simpl length; lia.
Qed.

Lemma pick_hidden (p : Player) (item : GameItem) :
  hidden item = true -> pick p item = item.
Proof. intros H. unfold pick, picked. rewrite H. reflexivity. Qed.

Lemma pick_picked (p : Player) (item : GameItem) :
  hidden item = false -> overlap_item p item = true ->
  pick p item = set_hidden item.
Proof. intros H1 H2. unfold pick, picked. rewrite H1, H2. reflexivity. Qed.

(** *** The robot loop and the goal check *)

Lemma update_state_twice (s : GameStateType) (g : GameState) :
  update_state s (update_state s g) = update_state s g.
Proof. destruct g as [sc []], s; reflexivity. Qed.

Lemma score_update_state (s : GameStateType) (g : GameState) :
  score (update_state s g) = score g.
Proof. destruct g as [sc []]; reflexivity. Qed.

Lemma state_update_state (s : GameStateType) (g : GameState) :
  state (update_state s g) = match state g with RUNNING => s | t => t end.
Proof. destruct g as [sc []]; reflexivity. Qed.

Lemma check_robots_game_state (p : Player) (robots : list Robot) (g : GameState) :
  fst (check_robots p robots g)
  = if existsb (overlap_robot p) robots then update_state LOST g else g.
Proof.
  revert g. induction robots as [|robot rest IH]; intros g; simpl; [reflexivity|].
  destruct (overlap_robot p robot); simpl.
  - specialize (IH (update_state LOST g)).
    destruct (check_robots p rest _). simpl in *. rewrite IH.
    destruct (existsb _ rest); [apply update_state_twice | reflexivity].
  - apply IH.
Qed.

Lemma check_robots_output (p : Player) (robots : list Robot) (g : GameState) :
  snd (check_robots p robots g)
  = map (fun _ => Print "YOU LOST!!") (hits p robots).
Proof.
  unfold hits.
  revert g. induction robots as [|robot rest IH]; intros g; simpl; [reflexivity|].
  destruct (overlap_robot p robot); simpl.
  - specialize (IH (update_state LOST g)).
    destruct (check_robots p rest _). simpl in *. congruence.
  - apply IH.
Qed.

Lemma hits_nonempty (p : Player) (robots : list Robot) :
  existsb (overlap_robot p) robots = true -> hits p robots <> [].
Proof.
  unfold hits. induction robots as [|robot rest IH]; simpl; [discriminate|].
  destruct (overlap_robot p robot); simpl; [discriminate | exact IH].
Qed.

(** *** One tick *)

Lemma update_phase_keeps (e : Env) (w : Game) :
  list_item (update_phase e w) = list_item w /\
  to_mo (update_phase e w) = to_mo w /\
  game_state (update_phase e w) = game_state w.
Proof.
  unfold update_phase.
  destruct (Player_update (player w) e) as [p e1].
  destruct (update_robots (list_robot w) e1) as [rs e2].
  simpl. repeat split.
Qed.

(** The collision phase, with its three loops resolved. *)
Lemma collision_phase_eq (w : Game) :
  collision_phase w =
  (let p := player w in
   let g1 := update_score (score (game_state w) + pickups p (list_item w))
                          (game_state w) in
   let g2 := if existsb (overlap_robot p) (list_robot w)
             then update_state LOST g1 else g1 in
   let g3 := if overlap_npc p (to_mo w) then update_state WON g2 else g2 in
   ({| player := p; list_robot := list_robot w;
       list_item := map (pick p) (list_item w);
       to_mo := to_mo w; game_state := g3 |},
    map (fun _ => Print "YOU LOST!!") (hits p (list_robot w))
    ++ (if overlap_npc p (to_mo w) then [Print "YOU WON!!"] else []))).
Proof.
  unfold collision_phase.
  pose proof (pickup_items_items (player w) (list_item w) (game_state w)) as Hi.
  pose proof (pickup_items_game_state (player w) (list_item w) (game_state w)) as Hg.
  destruct (pickup_items _ _ _) as [items g1]. simpl in Hi, Hg. subst items g1.
  set (g1 := update_score _ _).
  pose proof (check_robots_game_state (player w) (list_robot w) g1) as Hs.
  pose proof (check_robots_output (player w) (list_robot w) g1) as Ho.
  destruct (check_robots _ _ _) as [g2 out]. simpl in Hs, Ho. subst g2 out.
  unfold check_goal. cbv zeta.
  destruct (overlap_npc (player w) (to_mo w)); reflexivity.
Qed.

Lemma tick_not_running (e : Env) (w : Game) :
  state (game_state w) <> RUNNING -> tick e w = (w, [Frame w]).
Proof.
  intros Hs. unfold tick. destruct (state (game_state w)); [congruence| |]; reflexivity.
Qed.

Lemma tick_running (e : Env) (w : Game) :
  state (game_state w) = RUNNING ->
  tick e w = (fst (collision_phase (update_phase e w)),
              snd (collision_phase (update_phase e w))
              ++ [Frame (fst (collision_phase (update_phase e w)))]).
Proof.
  intros Hs. unfold tick. rewrite Hs.
  destruct (collision_phase (update_phase e w)). reflexivity.
Qed.

Lemma tick_score (e : Env) (w : Game) :
  score (game_state (fst (tick e w)))
  = match state (game_state w) with
    | RUNNING => score (game_state w)
                 + pickups (player (update_phase e w)) (list_item w)
    | _ => score (game_state w)
    end.
Proof.
  destruct (state (game_state w)) eqn:Hs.
  - rewrite tick_running by exact Hs. simpl.
    rewrite collision_phase_eq. cbv zeta. simpl.
    destruct (update_phase_keeps e w) as (-> & -> & ->).
    destruct (overlap_npc _ _), (existsb _ _);
      rewrite ?score_update_state; reflexivity.
  - rewrite tick_not_running by congruence. reflexivity.
  - rewrite tick_not_running by congruence. reflexivity.
Qed.

Lemma tick_items (e : Env) (w : Game) :
  list_item (fst (tick e w))
  = match state (game_state w) with
    | RUNNING => map (pick (player (update_phase e w))) (list_item w)
    | _ => list_item w
    end.
Proof.
  destruct (state (game_state w)) eqn:Hs.
  - rewrite tick_running by exact Hs. simpl.
    rewrite collision_phase_eq. cbv zeta. simpl.
    destruct (update_phase_keeps e w) as (-> & _ & _). reflexivity.
  - rewrite tick_not_running by congruence. reflexivity.
  - rewrite tick_not_running by congruence. reflexivity.
Qed.

(** *** Iterations and runs *)

Lemma iteration_no_quit (i : Input) (m : Machine) :
  quit i = false ->
  iteration i m = {| game := fst (tick (env i) (game m));
                     running := running m;
                     output := output m ++ snd (tick (env i) (game m)) |}.
Proof.
  intros Hq. unfold iteration. rewrite Hq.
  destruct (tick (env i) (game m)). reflexivity.
Qed.

Lemma iteration_quit (i : Input) (m : Machine) :
  quit i = true ->
  iteration i m = {| game := game m; running := false; output := output m |}.
Proof. intros Hq. unfold iteration. rewrite Hq. reflexivity. Qed.

Lemma run_stopped (inputs : list Input) (m : Machine) :
  running m = false -> run inputs m = m.
Proof. intros Hr. destruct inputs; simpl; [|rewrite Hr]; reflexivity. Qed.

Lemma run_app (ins1 ins2 : list Input) (m : Machine) :
  run (ins1 ++ ins2) m = run ins2 (run ins1 m).
Proof.
  revert m. induction ins1 as [|i rest IH]; intros m; simpl; [reflexivity|].
  destruct (running m) eqn:Hr; [apply IH|].
  symmetry. apply run_stopped. exact Hr.
Qed.

Lemma iteration_score_le (i : Input) (m : Machine) :
  current_score m <= current_score (iteration i m).
Proof.
  unfold current_score. destruct (quit i) eqn:Hq.
  - rewrite iteration_quit by exact Hq. simpl. lia.
  - rewrite iteration_no_quit by exact Hq. simpl. rewrite tick_score.
    pose proof (pickups_nonneg (player (update_phase (env i) (game m)))
                               (list_item (game m))).
    destruct (state (game_state (game m))); lia.
Qed.

Lemma iteration_terminal_game (i : Input) (m : Machine) :
  current_state m <> RUNNING -> game (iteration i m) = game m.
Proof.
  unfold current_state. intros Hs. destruct (quit i) eqn:Hq.
  - rewrite iteration_quit by exact Hq. reflexivity.
  - rewrite iteration_no_quit by exact Hq. simpl.
    rewrite tick_not_running by exact Hs. reflexivity.
Qed.

Lemma run_score_le (inputs : list Input) (m : Machine) :
  current_score m <= current_score (run inputs m).
Proof.
  revert m. induction inputs as [|i rest IH]; intros m; simpl; [lia|].
  destruct (running m); [|lia].
  pose proof (iteration_score_le i m). specialize (IH (iteration i m)). lia.
Qed.

Lemma run_terminal_game (inputs : list Input) (m : Machine) :
  current_state m <> RUNNING -> game (run inputs m) = game m.
Proof.
  revert m. induction inputs as [|i rest IH]; intros m Hs; simpl; [reflexivity|].
  destruct (running m); [|reflexivity].
  pose proof (iteration_terminal_game i m Hs) as Hg.
  rewrite IH; [exact Hg|]. unfold current_state in *. rewrite Hg. exact Hs.
Qed.


Lemma iteration_keeps_hidden (i : Input) (m : Machine) (k : nat) (item : GameItem) :
  list_item (game m) !! k = Some item -> hidden item = true ->
  list_item (game (iteration i m)) !! k = Some item.
Proof.
  intros Hk Hh. destruct (quit i) eqn:Hq.
  - rewrite iteration_quit by exact Hq. exact Hk.
  - rewrite iteration_no_quit by exact Hq. simpl. rewrite tick_items.
    destruct (state (game_state (game m))); try exact Hk.
    rewrite list_lookup_fmap, Hk. simpl. f_equal. apply pick_hidden, Hh.
Qed.

Lemma run_keeps_hidden (inputs : list Input) (m : Machine) (k : nat) (item : GameItem) :
  list_item (game m) !! k = Some item -> hidden item = true ->
  list_item (game (run inputs m)) !! k = Some item.
Proof.
  revert m. induction inputs as [|i rest IH]; intros m Hk Hh; simpl; [exact Hk|].
  destruct (running m); [|exact Hk].
  apply IH; [|exact Hh]. apply iteration_keeps_hidden; assumption.
Qed.

Lemma run_terminal_output (inputs : list Input) (m : Machine) :
  current_state m <> RUNNING ->
  exists n : nat, (n <= length inputs)%nat /\
    output (run inputs m) = output m ++ repeat (Frame (game m)) n.
Proof.
  revert m. induction inputs as [|i rest IH]; intros m Hs; simpl.
  - exists 0%nat. simpl. rewrite app_nil_r. split; [lia | reflexivity].
  - destruct (running m) eqn:Hr.
    2:{ exists 0%nat. simpl. rewrite app_nil_r. split; [lia | reflexivity]. }
    destruct (quit i) eqn:Hq.
    + rewrite iteration_quit by exact Hq. rewrite run_stopped by reflexivity.
      exists 0%nat. simpl. rewrite app_nil_r. split; [lia | reflexivity].
    + pose proof (iteration_terminal_game i m Hs) as Hg.
      destruct (IH (iteration i m)) as (n & Hn & Hout).
      { unfold current_state in *. rewrite Hg. exact Hs. }
      exists (S n). split; [lia|].
      rewrite Hout, Hg. rewrite iteration_no_quit by exact Hq. simpl.
      rewrite tick_not_running by exact Hs. simpl.
      rewrite <- app_assoc. reflexivity.
Qed.

End WithEntities.

(** *** The claims about the loop *)

Section Claims.
Context `{E : Entities}.

(** C1 (as the code has it). In a tick in which the player, after the
    update phase, overlaps a robot and the goal, the robot checks run
    before the goal check and the first transition met, LOST, is the one
    that stands; but the goal check is not skipped once LOST is set: after
    one line YOU LOST!! per overlapping robot the goal check still runs
    and prints YOU WON!!, and its request for WON is lost on the absorbing
    state.  The tick ends in LOST, with the score of the pickups. *)
Theorem hazard_transition_stands_goal_check_still_runs (e : Env) (w : Game) :
  let w1 := update_phase e w in
  state (game_state w) = RUNNING ->
  existsb (overlap_robot (player w1)) (list_robot w1) = true ->
  overlap_npc (player w1) (to_mo w1) = true ->
  game_state (fst (tick e w))
  = {| score := score (game_state w) + pickups (player w1) (list_item w);
       state := LOST |} /\
  hits (player w1) (list_robot w1) <> [] /\
  snd (tick e w)
  = map (fun _ => Print "YOU LOST!!") (hits (player w1) (list_robot w1))
    ++ [Print "YOU WON!!"; Frame (fst (tick e w))].
Proof.
  intros w1 Hs Hrobot Hgoal.
  rewrite tick_running by exact Hs. fold w1.
  rewrite collision_phase_eq. cbv zeta. simpl.
  rewrite Hrobot, Hgoal.
  destruct (update_phase_keeps e w) as (Hi & _ & Hg). fold w1 in Hi, Hg.
  rewrite Hi, Hg. split; [|split].
  - unfold update_state, update_score. simpl. rewrite Hs. reflexivity.
  - apply hits_nonempty, Hrobot.
  - rewrite <- app_assoc. reflexivity.
Qed.

(** C2. Once the state is WON or LOST nothing changes any more: an
    iteration that is not a quit leaves the whole game as it is and only
    draws a frame of it, and after any number of iterations the game
    (state, score, entities) is the same and the output has grown by
    frames of that same scene only. *)
Theorem terminal_state_is_absorbing (inputs : list Input) (i : Input) (m : Machine) :
  current_state m <> RUNNING ->
  (quit i = false ->
     iteration i m = {| game := game m; running := running m;
                        output := output m ++ [Frame (game m)] |}) /\
  game (run inputs m) = game m /\
  current_state (run inputs m) = current_state m /\
  exists n : nat, (n <= length inputs)%nat /\
    output (run inputs m) = output m ++ repeat (Frame (game m)) n.
Proof.
  intros Hs. split; [|split; [|split]].
  - intros Hq. rewrite iteration_no_quit by exact Hq.
    rewrite tick_not_running by exact Hs. reflexivity.
  - apply run_terminal_game, Hs.
  - unfold current_state. rewrite run_terminal_game by exact Hs. reflexivity.
  - apply run_terminal_output, Hs.
Qed.

(** C3. Along a run the score never decreases from one point to any
    later one, and from a point where the state is WON or LOST on it
    stays what it is. *)
Theorem score_monotone_and_frozen_when_over (ins1 ins2 : list Input) (m : Machine) :
  current_score (run ins1 m) <= current_score (run (ins1 ++ ins2) m) /\
  (current_state (run ins1 m) <> RUNNING ->
     current_score (run (ins1 ++ ins2) m) = current_score (run ins1 m)).
Proof.
  rewrite run_app. split.
  - apply run_score_le.
  - intros Hs. unfold current_score. rewrite run_terminal_game by exact Hs.
    reflexivity.
Qed.

(** C4. In a tick in which the player, after the update phase, overlaps
    an item that is not hidden, that item becomes hidden and adds exactly
    1 to the score (next to what the other items add); in every later
    tick the item is still hidden and the score only counts the other
    items, wherever the player stands. *)
Theorem pickup_scores_one_and_hides_the_item
    (e : Env) (w : Game) (k : nat) (item : GameItem) :
  let p := player (update_phase e w) in
  let w' := fst (tick e w) in
  state (game_state w) = RUNNING ->
  list_item w !! k = Some item ->
  hidden item = false ->
  overlap_item p item = true ->
  list_item w' !! k = Some (set_hidden item) /\
  hidden (set_hidden item) = true /\
  score (game_state w')
  = score (game_state w) + 1 + pickups p (delete k (list_item w)) /\
  forall (inputs : list Input) (out : list Output) (e2 : Env),
    let m := run inputs {| game := w'; running := true; output := out |} in
    list_item (game m) !! k = Some (set_hidden item) /\
    score (game_state (fst (tick e2 (game m))))
    = score (game_state (game m))
      + match state (game_state (game m)) with
        | RUNNING => pickups (player (update_phase e2 (game m)))
                             (delete k (list_item (game m)))
        | _ => 0
        end.
Proof.
  intros p w' Hs Hk Hh Ho.
  assert (Hk' : list_item w' !! k = Some (set_hidden item)).
  { unfold w'. rewrite tick_items, Hs, list_lookup_fmap, Hk. simpl.
    f_equal. apply pick_picked; assumption. }
  split; [exact Hk'|]. split; [reflexivity|]. split.
  - unfold w'. rewrite tick_score, Hs.
    rewrite (pickups_delete _ _ k item Hk).
    unfold picked at 1. fold p. rewrite Hh, Ho. simpl. lia.
  - intros inputs out e2 m.
    assert (Hm : list_item (game m) !! k = Some (set_hidden item)).
    { unfold m. apply run_keeps_hidden; [exact Hk' | reflexivity]. }
    split; [exact Hm|].
    rewrite tick_score. destruct (state (game_state (game m))); try lia.
    rewrite (pickups_delete _ _ k _ Hm). unfold picked at 1. simpl. lia.
Qed.

(** C5. When a QUIT event is pending at the top of an iteration, the
    loop exits at once, whatever the game state (RUNNING in particular):
    the game (entities, score, state) and the output are what they were,
    and no further input is consumed. *)
Theorem quit_exits_before_the_update_phase
    (i : Input) (rest : list Input) (m : Machine) :
  quit i = true ->
  running m = true ->
  iteration i m = {| game := game m; running := false; output := output m |} /\
  run (i :: rest) m = {| game := game m; running := false; output := output m |}.
Proof.
  intros Hq Hr. split.
  - apply iteration_quit, Hq.
  - simpl. rewrite Hr, iteration_quit by exact Hq.
    apply run_stopped. reflexivity.
Qed.

End Claims.

End LoopProps.

(** *** The loop on the spec's scenarios *)

Module LoopScenarios.
Import CrazyRobot Scenarios LoopProps.
#[local] Existing Instance Still.

(** Scenario 2 on the code: the player overlaps a robot and the goal; the
    robot loop has set LOST when the goal check is reached, and the goal
    check is not skipped: the tick prints YOU WON!! after YOU LOST!!. *)
Lemma both_overlap_goal_check_is_not_skipped :
  state (game_state both_game) = RUNNING /\
  existsb (overlap_robot (player (update_phase tt both_game)))
          (list_robot (update_phase tt both_game)) = true /\
  overlap_npc (player (update_phase tt both_game))
              (to_mo (update_phase tt both_game)) = true /\
  state (fst (check_robots (player (update_phase tt both_game))
                           (list_robot (update_phase tt both_game))
                           (game_state both_game))) = LOST /\
  snd (tick tt both_game)
  = [Print "YOU LOST!!"; Print "YOU WON!!"; Frame (fst (tick tt both_game))] /\
  In (Print "YOU WON!!") (snd (tick tt both_game)).
Proof.
  repeat split; try reflexivity. right. left. reflexivity.
Qed.

Lemma hazard_transition_stands_witness :
  game_state (fst (tick tt both_game)) = {| score := 0 + 0; state := LOST |} /\
  snd (tick tt both_game)
  = [Print "YOU LOST!!"; Print "YOU WON!!"; Frame (fst (tick tt both_game))].
Proof.
  destruct (hazard_transition_stands_goal_check_still_runs (E := Still)
              tt both_game eq_refl eq_refl eq_refl)
    as (Hstate & _ & Hout).
  split; [exact Hstate | exact Hout].
Defined.

Lemma terminal_state_is_absorbing_witness :
  current_state (start lost_game) <> RUNNING /\
  iteration no_quit (start lost_game)
  = {| game := lost_game; running := true; output := [Frame lost_game] |} /\
  game (run [no_quit; no_quit; no_quit] (start lost_game)) = lost_game.
Proof.
  assert (Hs : current_state (start lost_game) <> RUNNING) by discriminate.
  destruct (terminal_state_is_absorbing (E := Still)
              [no_quit; no_quit; no_quit] no_quit (start lost_game) Hs)
    as (Hit & Hgame & _).
  split; [exact Hs|]. split; [exact (Hit eq_refl) | exact Hgame].
Defined.

Lemma score_monotone_witness :
  current_state (run [no_quit] (start both_game)) <> RUNNING /\
  current_score (run ([no_quit] ++ [no_quit; no_quit]) (start both_game))
  = current_score (run [no_quit] (start both_game)).
Proof.
  assert (Hs : current_state (run [no_quit] (start both_game)) <> RUNNING)
    by (vm_compute; discriminate).
  split; [exact Hs|].
  apply (score_monotone_and_frozen_when_over (E := Still)
           [no_quit] [no_quit; no_quit] (start both_game)).
  exact Hs.
Defined.

(** Scenario 1: the score goes from 0 to 1 and the item is hidden. *)
Lemma pickup_scores_one_witness :
  list_item (fst (tick tt pickup_game)) !! 0%nat
  = Some (mkGameItem 5 5 DIAMOND_BLUE true ten_by_ten) /\
  score (game_state (fst (tick tt pickup_game))) = 0 + 1 + 0 /\
  score (game_state (game (run [no_quit; no_quit]
          {| game := fst (tick tt pickup_game); running := true; output := [] |})))
  = 1.
Proof.
  destruct (pickup_scores_one_and_hides_the_item (E := Still)
              tt pickup_game 0%nat
              (mkGameItem 5 5 DIAMOND_BLUE false ten_by_ten)
              eq_refl eq_refl eq_refl eq_refl)
    as (Hitem & _ & Hscore & _).
  split; [exact Hitem|]. split; [exact Hscore | reflexivity].
Defined.

Lemma quit_exits_witness :
  iteration do_quit (start pickup_game)
  = {| game := pickup_game; running := false; output := [] |} /\
  run [do_quit; no_quit] (start pickup_game)
  = {| game := pickup_game; running := false; output := [] |}.
Proof.
  exact (quit_exits_before_the_update_phase (E := Still)
           do_quit [no_quit] (start pickup_game) eq_refl eq_refl).
Defined.

End LoopScenarios.

(** ** The World *)

Module WorldProps.
Import Errors Worlds.

Lemma with_entities_same (w : World) : with_entities (entities w) w = w.
Proof. destruct w. reflexivity. Qed.

Lemma remove_entity_not_live (id : Z) (w w1 : World) :
  remove_entity id w = Ok w1 -> ~ is_live id w1.
Proof.
  unfold remove_entity, is_live. intros [= <-]. simpl.
  rewrite dom_delete_L, elem_of_difference, elem_of_singleton. tauto.
Qed.

(** C9. Removing an identifier that is not live (never registered, or
    already removed) does not raise and leaves the World as it is; in
    particular a second removal of the same identifier changes nothing. *)
Theorem remove_entity_absent_is_noop (id : Z) (w : World) :
  (~ is_live id w ->
     remove_entity id w = Ok w /\ raises (remove_entity id w) = false) /\
  (forall w1 : World, remove_entity id w = Ok w1 -> remove_entity id w1 = Ok w1).
Proof.
  assert (Hnoop : forall w0 : World, ~ is_live id w0 -> remove_entity id w0 = Ok w0).
  { intros w0 Hdead. unfold remove_entity, is_live in *.
    apply not_elem_of_dom in Hdead.
    rewrite delete_id by exact Hdead. rewrite with_entities_same. reflexivity. }
  split.
  - intros Hdead. split; [apply Hnoop, Hdead | reflexivity].
  - intros w1 Hrm. apply Hnoop. eapply remove_entity_not_live, Hrm.
Qed.

End WorldProps.

Module WorldScenarios.
Import Errors Worlds Scenarios WorldProps.

(** Identifier 8 was never live in a world that only holds 7, and 7 is no
    longer live once it has been removed. *)
Lemma remove_entity_absent_witness :
  ~ is_live 8 one_mark_world /\
  remove_entity 8 one_mark_world = Ok one_mark_world /\
  remove_entity 7 (with_entities (delete 7 (entities one_mark_world)) one_mark_world)
  = Ok (with_entities (delete 7 (entities one_mark_world)) one_mark_world).
Proof.
  assert (Hdead : ~ is_live 8 one_mark_world).
  { unfold is_live, one_mark_world. simpl. rewrite dom_singleton_L, elem_of_singleton.
    discriminate. }
  destruct (remove_entity_absent_is_noop 8 one_mark_world) as [Hnoop _].
  destruct (remove_entity_absent_is_noop 7 one_mark_world) as [_ Hagain].
  split; [exact Hdead|]. split.
  - exact (proj1 (Hnoop Hdead)).
  - apply Hagain. reflexivity.
Defined.

End WorldScenarios.

(** ** The friendly NPC *)

Module NpcProps.
Import OverlapDetector Errors Worlds Event Npc.

Section WithConfig.
Context `{C : Config}.


Lemma addressed_to_iff (my_id : Z) (e : GameEvent) :
  addressed_to my_id e = true <-> get_listener_id e = Some my_id.
Proof.
  unfold addressed_to. destruct (get_listener_id e) as [l|].
  - rewrite Z.eqb_eq. split; [intros ->; reflexivity | intros [= ->]; reflexivity].
  - split; discriminate.
Qed.


(** What the loop computes: the flag ends up set when it already was, or
    when some event is addressed to the entity and says the player is
    near. *)
Lemma handle_loop_true_iff (my_id : Z) (es : list GameEvent) (flag : bool) :
  handle_loop my_id es flag = true <->
  flag = true \/
  exists e : GameEvent,
    e ∈ es /\ event_type e = PLAYER_NEAR_NPC /\ get_listener_id e = Some my_id.
Proof.
  revert flag. induction es as [|x rest IH]; intros flag; simpl.
  - split; [intros ->; left; reflexivity|].
    intros [H | (e & Hin & _)]; [exact H|]. inversion Hin.
  - assert (Hrest : forall b : bool,
              (addressed_to my_id x = true -> is_type PLAYER_NEAR_NPC x = true ->
               False) ->
              handle_loop my_id rest b = true <->
              b = true \/
              exists e : GameEvent,
                e ∈ x :: rest /\ event_type e = PLAYER_NEAR_NPC /\
                get_listener_id e = Some my_id).
    { intros b Hx. rewrite IH. split.
      - intros [H | (e & Hin & He)]; [left; exact H|].
        right. exists e. split; [apply elem_of_cons; right; exact Hin | exact He].
      - intros [H | (e & Hin & Het & Hel)]; [left; exact H|].
        apply elem_of_cons in Hin as [-> | Hin].
        + exfalso. apply Hx; [apply addressed_to_iff, Hel|].
          unfold is_type. apply bool_decide_eq_true, Het.
        + right. exists e. split; [exact Hin | split; assumption]. }
    destruct (addressed_to my_id x) eqn:Hx; simpl.
    + destruct (is_type PLAYER_NEAR_NPC x) eqn:Ht.
      * rewrite IH. split; [intros _ | intros _; left; reflexivity].
        right. exists x. split; [apply elem_of_cons; left; reflexivity|].
        split; [apply bool_decide_eq_true in Ht; exact Ht|].
        apply addressed_to_iff, Hx.
      * apply Hrest. intros _ Hn. discriminate Hn.
    + apply Hrest. intros Hn _. discriminate Hn.
Qed.





End WithConfig.

End NpcProps.

Module NpcScenarios.
Import Errors Worlds Event Npc Scenarios NpcProps.
#[local] Existing Instance Tiles.


End NpcScenarios.

Module Checks.
Import OverlapDetector Errors Worlds Event Npc CrazyRobot Scenarios.
#[local] Existing Instance Tiles.
#[local] Existing Instance Still.

Example scenario1_bounds_overlap :
  overlaps (mkRect 0 0 10 10) (mkRect 5 5 10 10) = true.
Proof. reflexivity. Qed.

Example corner_contact_is_no_overlap :
  overlaps (mkRect 0 0 10 10) (mkRect 10 10 10 10) = false.
Proof. reflexivity. Qed.

Example empty_rect_overlaps_nothing :
  overlaps (mkRect 5 5 0 10) (mkRect 0 0 10 10) = false.
Proof. reflexivity. Qed.

Example npc8_hears_its_own_event :
  match update [near_npc7; near_npc8] (npc8, empty_world) with
  | Ok (n, w) => (is_near_player n, question_mark_id n, size (entities w))
  | Err _ => (false, None, 0%nat)
  end = (true, Some 0, 1%nat).
Proof. vm_compute. reflexivity. Qed.

Example npc8_flag_is_reset :
  match update [near_npc7] (npc8, empty_world) with
  | Ok (n, w) => (is_near_player n, question_mark_id n, size (entities w))
  | Err _ => (true, None, 1%nat)
  end = (false, None, 0%nat).
Proof. vm_compute. reflexivity. Qed.

Example lost_game_three_ticks :
  output (run [no_quit; no_quit; do_quit; no_quit] (start lost_game))
  = [Frame lost_game; Frame lost_game].
Proof. reflexivity. Qed.

End Checks.

(** ** More on the game loop of Crazy Robot *)

Module LoopExtras.
Import CrazyRobot CrazyRobotScript LoopProps.

Lemma set_hidden_twice (item : GameItem) :
  set_hidden (set_hidden item) = set_hidden item.
Proof. reflexivity. Qed.

Lemma same_or_hidden_refl (a : GameItem) : same_or_hidden a a.
Proof. left. reflexivity. Qed.

Lemma same_or_hidden_trans (a b c : GameItem) :
  same_or_hidden a b -> same_or_hidden b c -> same_or_hidden a c.
Proof.
  intros [-> | ->] [-> | ->]; try (left; reflexivity); right; reflexivity.
Qed.

Lemma frames_app (out1 out2 : list Output) :
  frames (out1 ++ out2) = (frames out1 + frames out2)%nat.
Proof. unfold frames. rewrite List.filter_app, length_app. reflexivity. Qed.

Lemma frames_lost_lines {A : Type} (l : list A) :
  frames (map (fun _ => Print "YOU LOST!!") l) = 0%nat.
Proof. induction l as [|x l IH]; [reflexivity | exact IH]. Qed.

Section WithEntities.
Context `{E : Entities}.

Lemma update_robots_length (robots : list Robot) (e : Env) :
  length (fst (update_robots robots e)) = length robots.
Proof.
  revert e. induction robots as [|r rest IH]; intros e; simpl; [reflexivity|].
  destruct (Robot_update r e) as [r' e1]. specialize (IH e1).
  destruct (update_robots rest e1). simpl in *. congruence.
Qed.

Lemma update_phase_robots_length (e : Env) (w : Game) :
  length (list_robot (update_phase e w)) = length (list_robot w).
Proof.
  unfold update_phase. destruct (Player_update (player w) e) as [p e1].
  pose proof (update_robots_length (list_robot w) e1) as Hl.
  destruct (update_robots (list_robot w) e1). exact Hl.
Qed.

(** Hiding the picked items takes exactly the pickups out of the items
    that are still visible. *)
Lemma visible_after_pick (p : Player) (items : list GameItem) :
  visible (map (pick p) items) = visible items - pickups p items.
Proof.
  unfold visible, pickups.
  induction items as [|item rest IH]; [reflexivity|].
  assert (Hitem : (if negb (hidden (pick p item)) then 1 else 0)
                  = (if negb (hidden item) then 1 else 0)
                    - (if picked p item then 1 else 0)).
  { unfold pick, picked. destruct (hidden item) eqn:Hh; simpl.
    - rewrite Hh. reflexivity.
    - destruct (overlap_item p item); simpl; [|rewrite Hh]; reflexivity. }
  simpl map. simpl List.filter.
  destruct (negb (hidden (pick p item))), (negb (hidden item)), (picked p item);
    simpl length; simpl in Hitem; lia.
Qed.

Lemma visible_nonneg (items : list GameItem) : 0 <= visible items.
Proof. unfold visible. lia. Qed.

Lemma map_pick_same_or_hidden (p : Player) (items : list GameItem) :
  Forall2 same_or_hidden items (map (pick p) items).
Proof.
  induction items as [|item rest IH]; simpl; constructor; [|exact IH].
  unfold pick. destruct (picked p item); [right | left]; reflexivity.
Qed.

Lemma Forall2_same_or_hidden_refl (items : list GameItem) :
  Forall2 same_or_hidden items items.
Proof. induction items; constructor; [apply same_or_hidden_refl | assumption]. Qed.

Lemma Forall2_same_or_hidden_trans (l1 l2 l3 : list GameItem) :
  Forall2 same_or_hidden l1 l2 -> Forall2 same_or_hidden l2 l3 ->
  Forall2 same_or_hidden l1 l3.
Proof.
  intros H12. revert l3. induction H12 as [|a b l1 l2 Hab _ IH]; intros l3 H23.
  - inversion H23. constructor.
  - inversion H23 as [|b' c l2' l3' Hbc Hrest]; subst. constructor.
    + eapply same_or_hidden_trans; eassumption.
    + apply IH, Hrest.
Qed.

(** What one tick leaves alone. *)
Lemma tick_cast (e : Env) (w : Game) :
  length (list_robot (fst (tick e w))) = length (list_robot w) /\
  to_mo (fst (tick e w)) = to_mo w /\
  Forall2 same_or_hidden (list_item w) (list_item (fst (tick e w))).
Proof.
  destruct (state (game_state w)) eqn:Hs.
  - rewrite tick_running by exact Hs. rewrite collision_phase_eq. cbv zeta. simpl.
    destruct (update_phase_keeps e w) as (Hi & Hn & _). rewrite Hi, Hn.
    split; [apply update_phase_robots_length|]. split; [reflexivity|].
    apply map_pick_same_or_hidden.
  - rewrite tick_not_running by congruence. simpl.
    split; [reflexivity|]. split; [reflexivity | apply Forall2_same_or_hidden_refl].
  - rewrite tick_not_running by congruence. simpl.
    split; [reflexivity|]. split; [reflexivity | apply Forall2_same_or_hidden_refl].
Qed.

Lemma tick_balance (e : Env) (w : Game) :
  score (game_state (fst (tick e w))) + visible (list_item (fst (tick e w)))
  = score (game_state w) + visible (list_item w).
Proof.
  rewrite tick_score, tick_items.
  destruct (state (game_state w)); try reflexivity.
  rewrite visible_after_pick. lia.
Qed.

Lemma iteration_balance (i : Input) (m : Machine) :
  current_score (iteration i m) + visible (list_item (game (iteration i m)))
  = current_score m + visible (list_item (game m)).
Proof.
  unfold current_score. destruct (quit i) eqn:Hq.
  - rewrite iteration_quit by exact Hq. reflexivity.
  - rewrite iteration_no_quit by exact Hq. simpl. apply tick_balance.
Qed.

Lemma run_balance (inputs : list Input) (m : Machine) :
  current_score (run inputs m) + visible (list_item (game (run inputs m)))
  = current_score m + visible (list_item (game m)).
Proof.
  revert m. induction inputs as [|i rest IH]; intros m; simpl; [reflexivity|].
  destruct (running m); [|reflexivity].
  rewrite IH. apply iteration_balance.
Qed.

Lemma tick_output_frames (e : Env) (w : Game) :
  frames (snd (tick e w)) = 1%nat /\
  last (snd (tick e w)) = Some (Frame (fst (tick e w))).
Proof.
  destruct (state (game_state w)) eqn:Hs.
  - rewrite tick_running by exact Hs. simpl. split; [|apply last_snoc].
    rewrite frames_app, collision_phase_eq. cbv zeta. simpl.
    rewrite frames_app, frames_lost_lines.
    destruct (overlap_npc _ _); reflexivity.
  - rewrite tick_not_running by congruence. split; reflexivity.
  - rewrite tick_not_running by congruence. split; reflexivity.
Qed.

(** X1. With WON and LOST absorbing, as section 3 of the spec has
    [GameState]: a tick that starts in RUNNING ends in LOST when the player
    (after the update phase) overlaps some robot, whether or not it also
    overlaps the goal; otherwise in WON when the player overlaps the goal;
    otherwise in RUNNING.  Picking items up never ends the game. *)
Theorem running_tick_final_state (e : Env) (w : Game) :
  let w1 := update_phase e w in
  state (game_state w) = RUNNING ->
  state (game_state (fst (tick e w)))
  = if existsb (overlap_robot (player w1)) (list_robot w1) then LOST
    else if overlap_npc (player w1) (to_mo w1) then WON
    else RUNNING.
Proof.
  intros w1 Hs. rewrite tick_running by exact Hs. fold w1.
  rewrite collision_phase_eq. cbv zeta. simpl.
  destruct (update_phase_keeps e w) as (_ & _ & Hg). fold w1 in Hg.
  rewrite Hg.
  destruct (existsb _ _), (overlap_npc _ _);
    rewrite ?state_update_state; simpl; rewrite ?Hs; reflexivity.
Qed.

(** X2. What a tick that starts in RUNNING prints and draws: one line
    YOU LOST!! for every robot the player overlaps (the robot loop does not
    stop at the first), then YOU WON!! when the player overlaps the goal,
    then one frame of the game as the tick leaves it. *)
Theorem running_tick_output (e : Env) (w : Game) :
  let w1 := update_phase e w in
  state (game_state w) = RUNNING ->
  snd (tick e w)
  = map (fun _ => Print "YOU LOST!!") (hits (player w1) (list_robot w1))
    ++ (if overlap_npc (player w1) (to_mo w1) then [Print "YOU WON!!"] else [])
    ++ [Frame (fst (tick e w))].
Proof.
  intros w1 Hs. rewrite tick_running by exact Hs. fold w1.
  rewrite collision_phase_eq. cbv zeta. simpl.
  rewrite <- app_assoc. reflexivity.
Qed.

(** X3. Along any run the score plus the number of items still visible
    stays what it was: every point scored is an item hidden, and the score
    can never grow by more than the items left. *)
Theorem score_plus_visible_items_is_constant (inputs : list Input) (m : Machine) :
  current_score (run inputs m) + visible (list_item (game (run inputs m)))
  = current_score m + visible (list_item (game m)) /\
  current_score (run inputs m) <= current_score m + visible (list_item (game m)).
Proof.
  pose proof (run_balance inputs m) as Hb.
  pose proof (visible_nonneg (list_item (game (run inputs m)))).
  split; [exact Hb | lia].
Qed.

(** X4. A run never adds or removes a robot or an item and never touches
    the goal: the number of robots and the goal are what they were, and
    every item is the item it was, at most with its hidden flag set. *)
Theorem run_keeps_the_cast (inputs : list Input) (m : Machine) :
  length (list_robot (game (run inputs m))) = length (list_robot (game m)) /\
  to_mo (game (run inputs m)) = to_mo (game m) /\
  Forall2 same_or_hidden (list_item (game m)) (list_item (game (run inputs m))).
Proof.
  revert m. induction inputs as [|i rest IH]; intros m; simpl.
  - split; [reflexivity|]. split; [reflexivity | apply Forall2_same_or_hidden_refl].
  - destruct (running m).
    2:{ split; [reflexivity|]. split; [reflexivity | apply Forall2_same_or_hidden_refl]. }
    destruct (IH (iteration i m)) as (Hr & Hn & Hi).
    assert (Hstep : length (list_robot (game (iteration i m)))
                    = length (list_robot (game m)) /\
                    to_mo (game (iteration i m)) = to_mo (game m) /\
                    Forall2 same_or_hidden (list_item (game m))
                            (list_item (game (iteration i m)))).
    { destruct (quit i) eqn:Hq.
      - rewrite iteration_quit by exact Hq. simpl.
        split; [reflexivity|]. split; [reflexivity | apply Forall2_same_or_hidden_refl].
      - rewrite iteration_no_quit by exact Hq. simpl. apply tick_cast. }
    destruct Hstep as (Hr1 & Hn1 & Hi1).
    split; [congruence|]. split; [congruence|].
    eapply Forall2_same_or_hidden_trans; eassumption.
Qed.

(** X5. An iteration that is not a quit draws exactly one frame, as its
    last output, and the frame shows the game as the iteration leaves it:
    after n such iterations the output holds n more frames and ends with a
    frame of the current game. *)
Theorem every_iteration_draws_the_current_game (inputs : list Input) (m : Machine) :
  running m = true ->
  Forall (fun i => quit i = false) inputs ->
  frames (output (run inputs m)) = (frames (output m) + length inputs)%nat /\
  (inputs <> [] -> last (output (run inputs m)) = Some (Frame (game (run inputs m)))).
Proof.
  intros Hr Hall. revert m Hr.
  induction Hall as [|i rest Hq _ IH]; intros m Hr; simpl.
  - split; [lia | congruence].
  - rewrite Hr.
    assert (Hr1 : running (iteration i m) = true)
      by (rewrite iteration_no_quit by exact Hq; exact Hr).
    destruct (IH (iteration i m) Hr1) as (Hf & Hl).
    destruct (tick_output_frames (env i) (game m)) as (Hf1 & Hl1).
    assert (Hfi : frames (output (iteration i m)) = S (frames (output m))).
    { rewrite iteration_no_quit by exact Hq. simpl. rewrite frames_app, Hf1. lia. }
    split; [rewrite Hf, Hfi; lia|]. intros _.
    destruct rest as [|i2 rest2]; [|apply Hl; congruence].
    simpl. rewrite iteration_no_quit by exact Hq. simpl.
    destruct (snd (tick (env i) (game m))) as [|o out] eqn:Hout; [discriminate Hl1|].
    rewrite last_app, Hl1. reflexivity.
Qed.

(** X6. The pickup loop does not depend on the collisions that follow it:
    in a tick that starts in RUNNING every visible item the player overlaps
    is hidden and counted, also in the very tick in which the game is lost
    or won. *)
Theorem pickups_count_in_the_final_tick (e : Env) (w : Game) :
  let p := player (update_phase e w) in
  state (game_state w) = RUNNING ->
  score (game_state (fst (tick e w))) = score (game_state w) + pickups p (list_item w) /\
  list_item (fst (tick e w)) = map (pick p) (list_item w).
Proof.
  intros p Hs. rewrite tick_score, tick_items, Hs. split; reflexivity.
Qed.

End WithEntities.

(** X7. The script as written (six items, score 0): whatever the sprites,
    the way the entities move and the inputs, the score of a run is six
    minus the number of items still visible, so it stays between 0 and 6. *)
Theorem script_score_is_six_minus_visible_items
    `{E : Entities} (player_sprite robot_sprite npc_sprite : Surface)
    (item_sprite : ItemType -> Surface) (inputs : list Input) :
  let m := run inputs (start (script_game player_sprite robot_sprite npc_sprite
                                          item_sprite)) in
  current_score m = 6 - visible (list_item (game m)) /\
  0 <= current_score m <= 6.
Proof.
  intros m.
  pose proof (run_balance inputs
                (start (script_game player_sprite robot_sprite npc_sprite item_sprite)))
    as Hb.
  fold m in Hb.
  change (current_score m + visible (list_item (game m)) = 0 + 6) in Hb.
  pose proof (visible_nonneg (list_item (game m))).
  pose proof (run_score_le inputs
                (start (script_game player_sprite robot_sprite npc_sprite item_sprite)))
    as Hle.
  fold m in Hle. change (0 <= current_score m) in Hle.
  split; lia.
Qed.

End LoopExtras.

(** ** More on the friendly NPC *)

Module NpcExtras.
Import OverlapDetector Errors Worlds Event Npc Geometry NpcInit NpcObservations NpcProps.

Section WithConfig.
Context `{C : Config}.

Lemma hears_iff_flag (n : FriendlyNpc) (es : list GameEvent) :
  hears n es <-> handle_loop (id n) es false = true.
Proof.
  unfold hears. rewrite handle_loop_true_iff. split.
  - intros H. right. exact H.
  - intros [H | H]; [discriminate H | exact H].
Qed.

Lemma not_hears_flag (n : FriendlyNpc) (es : list GameEvent) :
  ~ hears n es -> handle_loop (id n) es false = false.
Proof.
  intros H. apply not_true_is_false. rewrite <- hears_iff_flag. exact H.
Qed.


(** The four ways an update can go. *)
Lemma update_near_without_mark (es : list GameEvent) (n : FriendlyNpc) (w : World) :
  hears n es -> truthy (question_mark_id n) = false ->
  update es (n, w)
  = Ok (updated es true (Some (fresh (dom (entities w)))) n,
        with_entities (<[fresh (dom (entities w)) := question_mark_for n]> (entities w)) w).
Proof.
  intros Hh Hq. apply hears_iff_flag in Hh.
  unfold update, base_update, _handle_events. simpl. rewrite Hh. simpl. rewrite Hq. simpl.
  unfold add_entity, get_entity, mbind, result_bind, mret, result_ret. simpl.
  rewrite lookup_insert_eq. unfold store_entity, with_entities. simpl.
  rewrite insert_insert_eq. reflexivity.
Qed.

Lemma update_near_with_mark (es : list GameEvent) (n : FriendlyNpc) (w : World) :
  hears n es -> truthy (question_mark_id n) = true ->
  update es (n, w) = Ok (updated es true (question_mark_id n) n, w).
Proof.
  intros Hh Hq. apply hears_iff_flag in Hh.
  unfold update, base_update, _handle_events. simpl. rewrite Hh. simpl. rewrite Hq.
  reflexivity.
Qed.

Lemma update_far_with_mark (es : list GameEvent) (n : FriendlyNpc) (w : World) (q : Z) :
  ~ hears n es -> question_mark_id n = Some q -> q <> 0 ->
  update es (n, w)
  = Ok (updated es false None n, with_entities (delete q (entities w)) w).
Proof.
  intros Hh Hq Hz. apply not_hears_flag in Hh.
  unfold update, base_update, _handle_events. simpl. rewrite Hh. simpl. rewrite Hq.
  simpl. apply Z.eqb_neq in Hz. rewrite Hz. reflexivity.
Qed.

Lemma update_far_without_mark (es : list GameEvent) (n : FriendlyNpc) (w : World) :
  ~ hears n es -> truthy (question_mark_id n) = false ->
  update es (n, w) = Ok (updated es false (question_mark_id n) n, w).
Proof.
  intros Hh Hq. apply not_hears_flag in Hh.
  unfold update, base_update, _handle_events, updated. simpl. rewrite Hh. simpl.
  destruct n as [i r c b [q|] evs]; simpl in *; [|reflexivity].
  rewrite Hq. reflexivity.
Qed.



(** X10. While the NPC holds a question mark (under a non-zero identifier),
    being told again that the player is near changes nothing in the World
    and keeps the identifier: no second question mark is created. *)
Theorem near_update_keeps_the_question_mark
    (es : list GameEvent) (n : FriendlyNpc) (w : World) (q : Z) :
  hears n es ->
  question_mark_id n = Some q ->
  q <> 0 ->
  update es (n, w) = Ok (updated es true (Some q) n, w).
Proof.
  intros Hh Hq Hz. rewrite <- Hq. apply update_near_with_mark; [exact Hh|].
  rewrite Hq. simpl. apply Z.eqb_neq in Hz. rewrite Hz. reflexivity.
Qed.

(** X11. When the NPC is not told the player is near and it holds a
    question mark (under a non-zero identifier), the update removes that
    entity from the World, forgets the identifier, clears the flag, and
    leaves every other entity alone. *)
Theorem far_update_removes_the_question_mark
    (es : list GameEvent) (n : FriendlyNpc) (w : World) (q : Z) :
  ~ hears n es ->
  question_mark_id n = Some q ->
  q <> 0 ->
  exists w' : World,
    update es (n, w) = Ok (updated es false None n, w') /\
    ~ is_live q w' /\
    (forall j : Z, j <> q -> entities w' !! j = entities w !! j) /\
    screen_offset w' = screen_offset w.
Proof.
  intros Hh Hq Hz. eexists.
  split; [apply (update_far_with_mark es n w q); assumption|].
  unfold is_live. simpl. split; [|split; [|reflexivity]].
  - rewrite dom_delete_L, elem_of_difference, elem_of_singleton. tauto.
  - intros j Hj. apply lookup_delete_ne. congruence.
Qed.



(** The plain reading of [update] always gives a result; it changes nothing
    of the NPC but the stored events, the flag and the question mark
    identifier, keeps the scroll offset, and touches no entity but the one
    whose identifier the NPC holds and the one it registers. *)
Lemma update_touches_only_its_question_mark_aux
    (es : list GameEvent) (n : FriendlyNpc) (w : World) :
  exists (flag : bool) (q : option Z) (w' : World),
    update es (n, w) = Ok (updated es flag q n, w') /\
    screen_offset w' = screen_offset w /\
    forall j : Z,
      question_mark_id n <> Some j ->
      j <> fresh (dom (entities w)) ->
      entities w' !! j = entities w !! j.
Proof.
  destruct (handle_loop (id n) es false) eqn:Hflag.
  - apply hears_iff_flag in Hflag.
    destruct (truthy (question_mark_id n)) eqn:Hq.
    + eexists _, _, _. split; [apply update_near_with_mark; assumption|].
      split; [reflexivity|]. intros; reflexivity.
    + eexists _, _, _. split; [apply update_near_without_mark; assumption|].
      split; [reflexivity|]. simpl. intros j _ Hj.
      apply lookup_insert_ne. congruence.
  - assert (Hfar : ~ hears n es).
    { intros Hh. apply hears_iff_flag in Hh. congruence. }
    destruct (truthy (question_mark_id n)) eqn:Hq.
    + destruct (question_mark_id n) as [q|] eqn:Hn; [|discriminate Hq].
      assert (Hz : q <> 0).
      { simpl in Hq. apply negb_true_iff, Z.eqb_neq in Hq. exact Hq. }
      eexists _, _, _. split; [apply (update_far_with_mark es n w q); assumption|].
      split; [reflexivity|]. simpl. intros j Hj _.
      apply lookup_delete_ne. congruence.
    + eexists _, _, _. split; [apply update_far_without_mark; assumption|].
      split; [reflexivity|]. intros; reflexivity.
Qed.

End WithConfig.

End NpcExtras.

(** ** The player of Lesson 09 *)

Module PlayerProps.
Import OverlapDetector Errors Worlds Event Geometry PlayerEntity.

Lemma is_key_down_type (keys : list Z) (e : GameEvent) :
  is_key_down keys e = true -> event_type e = KEY_DOWN.
Proof.
  unfold is_key_down, is_type. intros H. apply andb_true_iff in H as [H _].
  apply bool_decide_eq_true in H. exact H.
Qed.

Lemma is_key_up_type (keys : list Z) (e : GameEvent) :
  is_key_up keys e = true -> event_type e = KEY_UP.
Proof.
  unfold is_key_up, is_type. intros H. apply andb_true_iff in H as [H _].
  apply bool_decide_eq_true in H. exact H.
Qed.

Lemma is_key_down_other_type (keys : list Z) (e : GameEvent) :
  event_type e <> KEY_DOWN -> is_key_down keys e = false.
Proof.
  intros H. apply not_true_is_false. intros Hd. apply H, (is_key_down_type keys), Hd.
Qed.

Lemma is_key_up_other_type (keys : list Z) (e : GameEvent) :
  event_type e <> KEY_UP -> is_key_up keys e = false.
Proof.
  intros H. apply not_true_is_false. intros Hd. apply H, (is_key_up_type keys), Hd.
Qed.

Lemma is_type_other (t : EventType) (e : GameEvent) :
  event_type e <> t -> is_type t e = false.
Proof. intros H. unfold is_type. apply bool_decide_eq_false. exact H. Qed.

Lemma is_key_up_of (keys : list Z) (e : GameEvent) (k : Z) :
  event_type e = KEY_UP -> payload e = Some k ->
  is_key_up keys e = existsb (Z.eqb k) keys.
Proof.
  intros Ht Hk. unfold is_key_up, is_type, key_in. rewrite Hk.
  rewrite bool_decide_eq_true_2 by exact Ht. reflexivity.
Qed.

Section WithMotion.
Context {Extra : Type} `{M : @Motion Extra} `{G : GameConfig}.

Lemma handle_loop_app (es1 es2 : list GameEvent) (s : Player * list GameEvent) :
  handle_loop (es1 ++ es2) s = handle_loop es2 (handle_loop es1 s).
Proof.
  revert s. induction es1 as [|e rest IH]; intros s; simpl; [reflexivity | apply IH].
Qed.

(** While the player is talking, an event that is neither a key release
    nor the end of a dialogue does nothing. *)
Lemma handle_event_while_talking (e : GameEvent) (p : Player) (queue : list GameEvent) :
  talking p = true ->
  event_type e <> KEY_UP -> event_type e <> NPC_DIALOGUE_END ->
  handle_event e (p, queue) = (p, queue).
Proof.
  intros Ht Hup Hend. unfold handle_event. rewrite Ht. simpl.
  rewrite !is_key_up_other_type by exact Hup.
  rewrite is_type_other by exact Hend. reflexivity.
Qed.

(** A key release passes the key-press block untouched. *)
Lemma handle_event_key_up (e : GameEvent) (p : Player) (queue : list GameEvent) :
  event_type e = KEY_UP ->
  handle_event e (p, queue)
  = if is_key_up [K_LEFT; K_a] e then (with_body (move_left false (body p)) p, queue)
    else if is_key_up [K_RIGHT; K_d] e then (with_body (move_right false (body p)) p, queue)
    else if is_key_up [K_e] e then _handle_activation (p, queue)
    else (p, queue).
Proof.
  intros Ht. unfold handle_event.
  assert (Hd : forall keys, is_key_down keys e = false)
    by (intros keys; apply is_key_down_other_type; congruence).
  rewrite !Hd. rewrite (is_type_other NPC_DIALOGUE_END) by congruence.
  destruct (negb (talking p)); reflexivity.
Qed.

(** One event posts at most one event, keeps the queue it found, and
    leaves the nearby NPC and the inventory alone. *)
Lemma handle_event_posts (e : GameEvent) (p : Player) (queue : list GameEvent) :
  npc_near_by (fst (handle_event e (p, queue))) = npc_near_by p /\
  inventory (fst (handle_event e (p, queue))) = inventory p /\
  (snd (handle_event e (p, queue)) = queue \/
   exists npc : NpcRef,
     npc_near_by p = Some npc /\ has_dialogue npc = true /\
     talking (fst (handle_event e (p, queue))) = true /\
     snd (handle_event e (p, queue))
     = queue ++ [mkGameEvent PLAYER_ACTIVATE_NPC (Some (npc_id npc)) None]).
Proof.
  unfold handle_event.
  set (p1 := if negb (talking p) then _ else p).
  assert (Hp1 : npc_near_by p1 = npc_near_by p /\ inventory p1 = inventory p).
  { unfold p1. destruct (negb (talking p)); [|split; reflexivity].
    destruct (is_key_down [K_LEFT; K_a] e); [split; reflexivity|].
    destruct (is_key_down [K_RIGHT; K_d] e); [split; reflexivity|].
    destruct (is_key_down [K_UP; K_SPACE; K_w] e); split; reflexivity. }
  destruct Hp1 as [Hn Hi]. clearbody p1.
  destruct (is_key_up [K_LEFT; K_a] e); [simpl; auto|].
  destruct (is_key_up [K_RIGHT; K_d] e); [simpl; auto|].
  destruct (is_key_up [K_e] e).
  - unfold _handle_activation. rewrite Hn.
    destruct (npc_near_by p) as [npc|] eqn:Hnpc; [|simpl; auto].
    destruct (has_dialogue npc) eqn:Hd; simpl; [|auto].
    split; [exact Hn|]. split; [exact Hi|]. right. exists npc. auto.
  - destruct (is_type NPC_DIALOGUE_END e); simpl; auto.
Qed.

Lemma near_loop_is_find
    (npcs : list NpcRef) (p : Player) (queue : list GameEvent) :
  _update_npc_near_by npcs (p, queue)
  = match List.find (fun npc => collide (rect (body p)) (npc_rect npc)) npcs with
    | Some npc =>
        (with_npc_near_by (Some npc) p,
         queue ++ [mkGameEvent PLAYER_NEAR_NPC (Some (npc_id npc)) None])
    | None => (with_npc_near_by None p, queue)
    end.
Proof.
  unfold _update_npc_near_by.
  induction npcs as [|npc rest IH]; simpl; [reflexivity|].
  destruct (collide (rect (body p)) (npc_rect npc)); [reflexivity | exact IH].
Qed.

(** X16. The search for a nearby NPC stops at the first NPC the player
    collides with, in the order the World yields them: that NPC becomes
    [npc_near_by] and exactly one PLAYER_NEAR_NPC event, addressed to it,
    joins the queue; when the player collides with none, [npc_near_by] is
    cleared, whatever it was, and nothing is posted. *)
Theorem update_npc_near_by_finds_the_first_colliding
    (npcs : list NpcRef) (p : Player) (queue : list GameEvent) :
  _update_npc_near_by npcs (p, queue)
  = match List.find (fun npc => collide (rect (body p)) (npc_rect npc)) npcs with
    | Some npc =>
        (with_npc_near_by (Some npc) p,
         queue ++ [mkGameEvent PLAYER_NEAR_NPC (Some (npc_id npc)) None])
    | None => (with_npc_near_by None p, queue)
    end.
Proof. apply near_loop_is_find. Qed.

Lemma handle_loop_while_talking
    (es : list GameEvent) (p : Player) (queue : list GameEvent) :
  talking p = true ->
  Forall (fun e => event_type e <> KEY_UP /\ event_type e <> NPC_DIALOGUE_END) es ->
  handle_loop es (p, queue) = (p, queue).
Proof.
  intros Ht Hall.
  induction Hall as [|e rest [Hup Hend] _ IH]; cbn [handle_loop]; [reflexivity|].
  rewrite handle_event_while_talking by assumption. exact IH.
Qed.

(** X17. While the player is talking, events that are neither key
    releases nor the end of a dialogue (key presses in particular) change
    nothing: the player does not move or jump, stays in the conversation,
    and posts nothing. *)
Theorem talking_player_ignores_key_presses
    (es : list GameEvent) (p : Player) (queue : list GameEvent) :
  talking p = true ->
  Forall (fun e => event_type e <> KEY_UP /\ event_type e <> NPC_DIALOGUE_END) es ->
  handle_loop es (p, queue) = (p, queue).
Proof.
  intros Ht Hall.
  induction Hall as [|e rest [Hup Hend] _ IH]; cbn [handle_loop]; [reflexivity|].
  rewrite handle_event_while_talking by assumption. exact IH.
Qed.

(** X18. Releasing the E key next to an NPC that has a dialogue posts
    exactly one PLAYER_ACTIVATE_NPC event addressed to that NPC and starts
    the conversation, and the key presses handled after it in the same
    update no longer move the player. *)
Theorem activation_starts_the_conversation
    (e : GameEvent) (presses : list GameEvent) (npc : NpcRef)
    (p : Player) (queue : list GameEvent) :
  npc_near_by p = Some npc ->
  has_dialogue npc = true ->
  event_type e = KEY_UP ->
  payload e = Some K_e ->
  Forall (fun e' => event_type e' = KEY_DOWN) presses ->
  handle_loop (e :: presses) (p, queue)
  = (with_talking true p,
     queue ++ [mkGameEvent PLAYER_ACTIVATE_NPC (Some (npc_id npc)) None]).
Proof.
  intros Hnpc Hd Ht Hk Hpresses. cbn [handle_loop].
  rewrite handle_event_key_up by exact Ht.
  rewrite !(is_key_up_of _ e K_e Ht Hk). simpl.
  unfold _handle_activation. rewrite Hnpc, Hd. simpl.
  apply handle_loop_while_talking; [reflexivity|].
  eapply Forall_impl; [exact Hpresses|].
  intros e' He'. simpl in He'. rewrite He'. split; discriminate.
Qed.

(** X19. Whatever the events, handling them leaves [npc_near_by] and the
    inventory alone and only appends to the queue, and every event it
    appends is a PLAYER_ACTIVATE_NPC event addressed to the nearby NPC,
    which has a dialogue; so with no NPC nearby, or with one that has no
    dialogue, nothing is posted. *)
Theorem handle_events_posts_only_activations
    (es : list GameEvent) (p : Player) (queue : list GameEvent) :
  npc_near_by (fst (handle_loop es (p, queue))) = npc_near_by p /\
  inventory (fst (handle_loop es (p, queue))) = inventory p /\
  exists posted : list GameEvent,
    snd (handle_loop es (p, queue)) = queue ++ posted /\
    Forall (fun ev =>
              exists npc : NpcRef,
                npc_near_by p = Some npc /\ has_dialogue npc = true /\
                ev = mkGameEvent PLAYER_ACTIVATE_NPC (Some (npc_id npc)) None)
           posted.
Proof.
  revert p queue. induction es as [|e rest IH]; intros p queue; cbn [handle_loop].
  - split; [reflexivity|]. split; [reflexivity|]. exists [].
    rewrite app_nil_r. split; [reflexivity | constructor].
  - destruct (handle_event_posts e p queue) as (Hn & Hi & Hq).
    destruct (handle_event e (p, queue)) as [p1 q1]. simpl in Hn, Hi, Hq.
    destruct (IH p1 q1) as (Hn' & Hi' & posted & Hsnd & Hall).
    split; [congruence|]. split; [congruence|].
    rewrite Hn in Hall.
    destruct Hq as [-> | (npc & Hnpc & Hd & _ & ->)].
    + exists posted. split; [exact Hsnd | exact Hall].
    + exists (mkGameEvent PLAYER_ACTIVATE_NPC (Some (npc_id npc)) None :: posted).
      split; [rewrite Hsnd, <- app_assoc; reflexivity|].
      constructor; [exists npc; auto | exact Hall].
Qed.

(** X20. After a sequence of events that ends with NPC_DIALOGUE_END the
    player is no longer talking, whatever came before it in the sequence. *)
Theorem dialogue_end_stops_the_conversation
    (es : list GameEvent) (e : GameEvent) (s : Player * list GameEvent) :
  event_type e = NPC_DIALOGUE_END ->
  talking (fst (handle_loop (es ++ [e]) s)) = false /\
  snd (handle_loop (es ++ [e]) s) = snd (handle_loop es s).
Proof.
  intros Ht. rewrite handle_loop_app. cbn [handle_loop].
  destruct (handle_loop es s) as [p queue]. unfold handle_event.
  rewrite !is_key_down_other_type by congruence.
  rewrite !is_key_up_other_type by congruence.
  unfold is_type. rewrite bool_decide_eq_true_2 by exact Ht.
  split; reflexivity.
Qed.

(** X21. A key release is honoured whether or not the player is talking:
    releasing LEFT or A always calls [move_left(False)] and releasing RIGHT
    or D always calls [move_right(False)], and neither posts anything nor
    changes [talking]. *)
Theorem key_release_always_stops_the_move
    (e : GameEvent) (k : Z) (p : Player) (queue : list GameEvent) :
  event_type e = KEY_UP ->
  payload e = Some k ->
  (k = K_LEFT \/ k = K_a ->
     handle_event e (p, queue) = (with_body (move_left false (body p)) p, queue)) /\
  (k = K_RIGHT \/ k = K_d ->
     handle_event e (p, queue) = (with_body (move_right false (body p)) p, queue)).
Proof.
  intros Ht Hk. rewrite handle_event_key_up by exact Ht.
  rewrite !(is_key_up_of _ e k Ht Hk).
  split; intros [-> | ->]; reflexivity.
Qed.

(** The collectable tiles the player collides with. *)
Lemma pick_loop_eq (tiles : list (Z * Entity)) (p : Player) (w : World) :
  exists w' : World,
    pick_loop tiles (p, w)
    = Ok (with_inventory
            (inventory p
             ++ List.filter (fun tile => collide (rect (body p)) (entity_rect (snd tile)))
                            tiles) p, w') /\
    screen_offset w' = screen_offset w /\
    forall j : Z,
      entities w' !! j
      = if existsb (fun tile => (fst tile =? j)
                                && collide (rect (body p)) (entity_rect (snd tile))) tiles
        then None else entities w !! j.
Proof.
  revert p w. induction tiles as [|tile rest IH]; intros p w; cbn [pick_loop].
  - exists w. simpl. rewrite app_nil_r.
    split; [destruct p; reflexivity|]. split; reflexivity.
  - simpl List.filter. simpl existsb.
    destruct (collide (rect (body p)) (entity_rect (snd tile))) eqn:Hc.
    + unfold remove_entity, mbind, result_bind.
      destruct (IH (with_inventory (inventory p ++ [tile]) p)
                   (with_entities (delete (fst tile) (entities w)) w))
        as (w' & Hloop & Hoff & Hlook).
      exists w'. rewrite Hloop. simpl. split; [|split; [exact Hoff|]].
      * unfold with_inventory. simpl. rewrite <- app_assoc. reflexivity.
      * intros j. rewrite Hlook. simpl. rewrite andb_true_r.
        destruct (existsb _ rest); [rewrite orb_true_r; reflexivity|].
        rewrite orb_false_r. destruct (Z.eqb_spec (fst tile) j) as [-> | Hne].
        -- apply lookup_delete_eq.
        -- apply lookup_delete_ne, Hne.
    + destruct (IH p w) as (w' & Hloop & Hoff & Hlook).
      exists w'. split; [exact Hloop|]. split; [exact Hoff|].
      intros j. rewrite Hlook, andb_false_r. reflexivity.
Qed.

(** X24. Picking up never raises and moves entities from the World to the
    inventory: the tiles the player collides with are appended to the
    inventory in the order the World yields them, after what was there;
    none of them is live afterwards; every other entity is untouched. *)
Theorem picked_tiles_move_from_world_to_inventory
    (tiles : list (Z * Entity)) (p : Player) (w : World) :
  let near := fun tile : Z * Entity => collide (rect (body p)) (entity_rect (snd tile)) in
  exists (p' : Player) (w' : World),
    _pick_item_near_by tiles (p, w) = Ok (p', w') /\
    inventory p' = inventory p ++ List.filter near tiles /\
    body p' = body p /\ talking p' = talking p /\ npc_near_by p' = npc_near_by p /\
    (forall tile : Z * Entity,
       In tile tiles -> near tile = true -> ~ is_live (fst tile) w') /\
    (forall j : Z,
       (forall tile : Z * Entity, In tile tiles -> near tile = true -> fst tile <> j) ->
       entities w' !! j = entities w !! j).
Proof.
  intros near. unfold _pick_item_near_by.
  destruct (pick_loop_eq tiles p w) as (w' & Hloop & _ & Hlook).
  eexists _, w'. split; [exact Hloop|]. simpl.
  split; [reflexivity|]. repeat (split; [reflexivity|]). split.
  - intros tile Hin Hnear. unfold is_live. rewrite not_elem_of_dom, Hlook.
    replace (existsb _ tiles) with true; [reflexivity|].
    symmetry. apply existsb_exists. exists tile. split; [exact Hin|].
    rewrite Z.eqb_refl. exact Hnear.
  - intros j Hj. rewrite Hlook.
    destruct (existsb _ tiles) eqn:Hex; [|reflexivity].
    apply existsb_exists in Hex as (tile & Hin & Hc).
    apply andb_true_iff in Hc as [Heq Hnear]. apply Z.eqb_eq in Heq.
    exfalso. exact (Hj tile Hin Hnear Heq).
Qed.

End WithMotion.

Section PlayerMeetsNpc.
Context {Extra : Type} `{M : @Motion Extra} `{C : Config}.


End PlayerMeetsNpc.

End PlayerProps.

(** ** The further properties on concrete scenarios *)

Module LoopExtraScenarios.
Import CrazyRobot CrazyRobotScript Scenarios MoreScenarios LoopExtras.
#[local] Existing Instance Still.

Lemma running_tick_final_state_witness :
  state (game_state (fst (tick tt both_game))) = LOST /\
  state (game_state (fst (tick tt goal_game))) = WON /\
  state (game_state (fst (tick tt pickup_game))) = RUNNING.
Proof.
  split; [|split].
  - exact (running_tick_final_state (E := Still) tt both_game eq_refl).
  - exact (running_tick_final_state (E := Still) tt goal_game eq_refl).
  - exact (running_tick_final_state (E := Still) tt pickup_game eq_refl).
Defined.

Lemma running_tick_output_witness :
  snd (tick tt crowded_game) = [Print "YOU LOST!!"; Frame (fst (tick tt crowded_game))].
Proof. exact (running_tick_output (E := Still) tt crowded_game eq_refl). Defined.

Lemma every_iteration_draws_witness :
  frames (output (run [no_quit; no_quit] (start pickup_game))) = 2%nat /\
  last (output (run [no_quit; no_quit] (start pickup_game)))
  = Some (Frame (game (run [no_quit; no_quit] (start pickup_game)))).
Proof.
  assert (Hall : Forall (fun i => quit i = false) [no_quit; no_quit])
    by (repeat constructor).
  destruct (every_iteration_draws_the_current_game (E := Still)
              [no_quit; no_quit] (start pickup_game) eq_refl Hall) as [Hf Hl].
  split; [exact Hf | apply Hl; discriminate].
Defined.

Lemma pickups_count_in_the_final_tick_witness :
  state (game_state (fst (tick tt crowded_game))) = LOST /\
  score (game_state (fst (tick tt crowded_game))) = 0 + 1.
Proof.
  split; [reflexivity|].
  exact (proj1 (pickups_count_in_the_final_tick (E := Still) tt crowded_game eq_refl)).
Defined.

End LoopExtraScenarios.

Module NpcExtraScenarios.
Import OverlapDetector Errors Worlds Event Npc Geometry NpcInit NpcObservations.
Import Scenarios MoreScenarios NpcExtras.
#[local] Existing Instance Tiles.
#[local] Existing Instance Screen.

Lemma npc8_hears_its_name (n : FriendlyNpc) :
  id n = 8 -> hears n [near_npc7; near_npc8].
Proof.
  intros Hid. exists near_npc8. split.
  - apply elem_of_cons. right. apply elem_of_cons. left. reflexivity.
  - split; [reflexivity | rewrite Hid; reflexivity].
Qed.

Lemma npc8_hears_nothing (n : FriendlyNpc) :
  id n = 8 -> ~ hears n [near_npc7; broadcast_near].
Proof.
  intros Hid (e & Hin & _ & Hl). rewrite Hid in Hl.
  apply elem_of_cons in Hin as [-> | Hin]; [discriminate Hl|].
  apply list_elem_of_singleton in Hin. subst e. discriminate Hl.
Qed.


Lemma near_update_keeps_the_question_mark_witness :
  update [near_npc7; near_npc8] (npc8_with_mark, one_mark_world)
  = Ok (updated [near_npc7; near_npc8] true (Some 7) npc8_with_mark, one_mark_world).
Proof.
  apply (near_update_keeps_the_question_mark
           [near_npc7; near_npc8] npc8_with_mark one_mark_world 7).
  - apply npc8_hears_its_name. reflexivity.
  - reflexivity.
  - discriminate.
Defined.

Lemma far_update_removes_the_question_mark_witness :
  exists w' : World,
    update [near_npc7; broadcast_near] (npc8_with_mark, one_mark_world)
    = Ok (updated [near_npc7; broadcast_near] false None npc8_with_mark, w') /\
    ~ is_live 7 w'.
Proof.
  destruct (far_update_removes_the_question_mark
              [near_npc7; broadcast_near] npc8_with_mark one_mark_world 7)
    as (w' & Hup & Hdead & _).
  - apply npc8_hears_nothing. reflexivity.
  - reflexivity.
  - discriminate.
  - exists w'. split; [exact Hup | exact Hdead].
Defined.




End NpcExtraScenarios.

Module PlayerScenarios.
Import OverlapDetector Errors Worlds Event Geometry PlayerEntity.
Import Scenarios MoreScenarios PlayerProps.
#[local] Existing Instance Walk.
#[local] Existing Instance Screen.

Lemma talking_player_ignores_key_presses_witness :
  handle_loop [key KEY_DOWN K_LEFT; key KEY_DOWN K_SPACE] (talking_hero, [])
  = (talking_hero, []).
Proof.
  apply (talking_player_ignores_key_presses (M := Walk)
           [key KEY_DOWN K_LEFT; key KEY_DOWN K_SPACE] talking_hero []).
  - reflexivity.
  - repeat constructor; discriminate.
Defined.

Lemma activation_starts_the_conversation_witness :
  handle_loop [key KEY_UP K_e; key KEY_DOWN K_RIGHT] (hero, [])
  = (with_talking true hero,
     [] ++ [mkGameEvent PLAYER_ACTIVATE_NPC (Some 8) None]).
Proof.
  apply (activation_starts_the_conversation (M := Walk)
           (key KEY_UP K_e) [key KEY_DOWN K_RIGHT] shopkeeper hero []).
  - reflexivity.
  - reflexivity.
  - reflexivity.
  - reflexivity.
  - repeat constructor.
Defined.

Lemma dialogue_end_stops_the_conversation_witness :
  talking (fst (handle_loop ([key KEY_UP K_e] ++ [dialogue_end]) (hero, []))) = false.
Proof.
  apply (dialogue_end_stops_the_conversation (M := Walk)
           [key KEY_UP K_e] dialogue_end (hero, [])).
  reflexivity.
Defined.

Lemma key_release_always_stops_the_move_witness :
  handle_event (key KEY_UP K_a) (talking_hero, [])
  = (with_body (move_left false (body talking_hero)) talking_hero, []).
Proof.
  destruct (key_release_always_stops_the_move (M := Walk)
              (key KEY_UP K_a) K_a talking_hero [] eq_refl eq_refl) as [Hleft _].
  apply Hleft. right. reflexivity.
Defined.

End PlayerScenarios.

(** ** pygame rectangles *)

Module PygameRectProps.
Import OverlapDetector Geometry PygameRect.

Lemma in_int_iff (v : Z) : in_int v = true <-> INT_MIN <= v <= INT_MAX.
Proof. unfold in_int. rewrite andb_true_iff, !Z.leb_le. reflexivity. Qed.

Lemma in_int_false_iff (v : Z) : in_int v = false <-> v < INT_MIN \/ INT_MAX < v.
Proof.
  rewrite <- not_true_iff_false, in_int_iff. lia.
Qed.

Lemma wrap_in_int (v : Z) : in_int (wrap v) = true.
Proof.
  apply in_int_iff. unfold wrap, INT_MIN, INT_MAX.
  pose proof (Z.mod_pos_bound (v - -2147483648) 4294967296 eq_refl). lia.
Qed.

Lemma wrap_id (v : Z) : in_int v = true -> wrap v = v.
Proof.
  intros H. apply in_int_iff in H. unfold wrap, INT_MIN, INT_MAX in *.
  rewrite Z.mod_small by lia. lia.
Qed.

Lemma wrap_add_l (a b : Z) : wrap (wrap a + b) = wrap (a + b).
Proof.
  unfold wrap. f_equal.
  replace ((a - INT_MIN) mod 4294967296 + INT_MIN + b - INT_MIN)
    with ((a - INT_MIN) mod 4294967296 + b) by lia.
  rewrite Zplus_mod_idemp_l. f_equal. lia.
Qed.

(** Below the range by less than 2^32, the C int is the result plus 2^32. *)
Lemma wrap_below (v : Z) :
  INT_MIN - 4294967296 <= v < INT_MIN -> wrap v = v + 4294967296.
Proof.
  intros H. unfold wrap, INT_MIN in *.
  replace (v - -2147483648) with ((v + 4294967296 - -2147483648) + (-1) * 4294967296)
    by lia.
  rewrite Z.mod_add by discriminate. rewrite Z.mod_small by lia. lia.
Qed.

Lemma wrap_above (v : Z) :
  INT_MAX < v <= INT_MAX + 4294967296 -> wrap v = v - 4294967296.
Proof.
  intros H. unfold wrap, INT_MIN, INT_MAX in *.
  replace (v - -2147483648) with ((v - 4294967296 - -2147483648) + 1 * 4294967296)
    by lia.
  rewrite Z.mod_add by discriminate. rewrite Z.mod_small by lia. lia.
Qed.

(** A centre assigned is the centre read back. *)
Lemma centerx_assigned (v : Z) (r r' : Rect) :
  assign_centerx v r = Some r' ->
  get_centerx r' = v /\ rect_y r' = rect_y r /\
  rect_w r' = rect_w r /\ rect_h r' = rect_h r.
Proof.
  unfold assign_centerx. destruct (in_int v) eqn:Hv; [|discriminate].
  intros [= <-]. unfold get_centerx. simpl. rewrite wrap_add_l.
  split; [|repeat split].
  replace (v - Z.of_N (rect_w r) / 2 + Z.of_N (rect_w r) / 2) with v by lia.
  apply wrap_id, Hv.
Qed.

(** A bottom assigned is the bottom read back. *)
Lemma bottom_assigned (v : Z) (r r' : Rect) :
  assign_bottom v r = Some r' ->
  get_bottom r' = v /\ rect_y r' = wrap (v - Z.of_N (rect_h r)) /\
  rect_x r' = rect_x r /\ rect_w r' = rect_w r /\ rect_h r' = rect_h r.
Proof.
  unfold assign_bottom. destruct (in_int v) eqn:Hv; [|discriminate].
  intros [= <-]. unfold get_bottom. simpl. rewrite wrap_add_l.
  split; [|repeat split].
  replace (v - Z.of_N (rect_h r) + Z.of_N (rect_h r)) with v by lia.
  apply wrap_id, Hv.
Qed.

Example bottom_assignment_wraps :
  assign_bottom (-2147483638 + 32) (mkRect 0 (-2147483638) 32 64)
  = Some (mkRect 0 2147483626 32 64).
Proof. reflexivity. Qed.

Example right_wraps : get_right (mkRect 2147483637 0 32 64) = -2147483627.
Proof. reflexivity. Qed.

Example y_below_the_range_is_refused :
  assign_y (-2147483600 - 80) (mkRect 0 0 32 32) = None.
Proof. reflexivity. Qed.

End PygameRectProps.

(** ** The friendly NPC on pygame rectangles *)

Module NpcOnPygameProps.
Import OverlapDetector Errors Worlds Event Npc Geometry PygameRect NpcInit.
Import NpcObservations NpcProps NpcExtras PygameRectProps.
Import NpcOnPygame(PyError, TypeError, WorldError, outcome, Returns, Raises,
                   final_state, with_rect, centred_mark, placed_mark).

Section WithConfig.
Context `{C : Config}.

(** Told near, without a question mark: the mark is registered and centred,
    and the assignment of its height decides how the method ends. *)
Lemma on_pygame_near_without_mark (es : list GameEvent) (n : FriendlyNpc) (w : World) :
  hears n es -> truthy (question_mark_id n) = false ->
  NpcOnPygame.update es (n, w)
  = if in_int (rect_y (rect n) - 80)
    then Returns (updated es true (Some (fresh (dom (entities w)))) n,
                  with_entities (<[fresh (dom (entities w)) := placed_mark n]>
                                   (entities w)) w)
    else Raises TypeError
                (updated es true (Some (fresh (dom (entities w)))) n,
                 with_entities (<[fresh (dom (entities w)) := centred_mark n]>
                                  (entities w)) w).
Proof.
  intros Hh Hq. apply hears_iff_flag in Hh.
  unfold NpcOnPygame.update, base_update, _handle_events. simpl. rewrite Hh. simpl.
  rewrite Hq. cbn [negb]. unfold add_entity. unfold get_entity at 1.
  cbn [entities with_entities]. rewrite lookup_insert_eq.
  cbn [entity_rect].
  assert (Hc : forall r : Rect,
            assign_centerx (get_centerx (rect n)) r
            = Some (set_x (wrap (get_centerx (rect n) - Z.of_N (rect_w r) / 2)) r)).
  { intros r. unfold assign_centerx, get_centerx. rewrite wrap_in_int. reflexivity. }
  rewrite Hc. unfold assign_y, store_entity, with_entities.
  cbn [entities screen_offset].
  destruct (in_int (rect_y (rect n) - 80));
    repeat rewrite insert_insert_eq; reflexivity.
Qed.

(** In every other case no rectangle is touched and the method ends as in
    the plain reading of lines 32-59. *)
Lemma on_pygame_otherwise (es : list GameEvent) (n : FriendlyNpc) (w : World) :
  ~ (hears n es /\ truthy (question_mark_id n) = false) ->
  exists x : FriendlyNpc * World,
    Npc.update es (n, w) = Ok x /\ NpcOnPygame.update es (n, w) = Returns x.
Proof.
  intros Hnot.
  unfold NpcOnPygame.update, Npc.update, base_update, _handle_events. simpl.
  destruct (handle_loop (id n) es false) eqn:Hflag; simpl.
  - destruct (truthy (question_mark_id n)) eqn:Hq; simpl.
    + eexists. split; reflexivity.
    + exfalso. apply Hnot. split; [apply hears_iff_flag, Hflag | reflexivity].
  - destruct (question_mark_id n) as [q|]; simpl.
    + destruct (negb (q =? 0)); eexists; split; reflexivity.
    + eexists. split; reflexivity.
Qed.

(** X9. On pygame rectangles: when the NPC is told the player is near, holds
    no question mark, and its top less 80 is a C int, the update returns; it
    has registered exactly one new entity under an identifier that was not
    live, stores that identifier, and leaves every other entity alone; the
    new entity is a question mark of the configured size whose [centerx]
    reads as the NPC's [centerx] and whose top is 80 above the NPC's top. *)
Theorem near_update_puts_a_question_mark_above_the_npc
    (es : list GameEvent) (n : FriendlyNpc) (w : World) :
  hears n es ->
  truthy (question_mark_id n) = false ->
  in_int (rect_y (rect n) - 80) = true ->
  exists (n' : FriendlyNpc) (w' : World) (q : Z) (mark : Entity),
    NpcOnPygame.update es (n, w) = Returns (n', w') /\
    ~ is_live q w /\
    question_mark_id n' = Some q /\
    entities w' !! q = Some mark /\
    (forall j : Z, j <> q -> entities w' !! j = entities w !! j) /\
    entity_type mark = QUESTION_MARK /\
    get_centerx (entity_rect mark) = get_centerx (rect n) /\
    rect_top (entity_rect mark) = rect_top (rect n) - 80 /\
    rect_w (entity_rect mark) = rect_w (default_rect QUESTION_MARK) /\
    rect_h (entity_rect mark) = rect_h (default_rect QUESTION_MARK).
Proof.
  intros Hh Hq Hy.
  eexists _, _, (fresh (dom (entities w))), (placed_mark n).
  split; [rewrite on_pygame_near_without_mark, Hy by assumption; reflexivity|].
  split; [unfold is_live; apply is_fresh|]. split; [reflexivity|]. simpl.
  split; [apply lookup_insert_eq|].
  split; [intros j Hj; apply lookup_insert_ne; congruence|].
  split; [reflexivity|].
  split; [|repeat split].
  unfold placed_mark, centred_mark, get_centerx at 1. simpl.
  rewrite wrap_add_l.
  replace (get_centerx (rect n) - Z.of_N (rect_w (default_rect QUESTION_MARK)) / 2
           + Z.of_N (rect_w (default_rect QUESTION_MARK)) / 2)
    with (get_centerx (rect n)) by lia.
  apply wrap_id, wrap_in_int.
Qed.

(** X14. On pygame rectangles: how an update ends and what it never
    touches.  It returns, except that it raises TypeError exactly when the
    NPC is told the player is near, holds no question mark, and its top
    less 80 is not a C int; then the new question mark stays registered,
    centred, at its default height.  Either way the NPC differs only in the
    stored events, the flag and the question mark identifier (which are
    those of the plain reading of the method), the World keeps its scroll
    offset, and the only entities touched are the one whose identifier the
    NPC held and the one registered. *)
Theorem update_raises_only_on_the_height_and_touches_only_its_mark
    (es : list GameEvent) (n : FriendlyNpc) (w : World) :
  exists (flag : bool) (q : option Z) (w' : World),
    (NpcOnPygame.update es (n, w) = Returns (updated es flag q n, w') \/
     NpcOnPygame.update es (n, w) = Raises TypeError (updated es flag q n, w')) /\
    (NpcOnPygame.update es (n, w) = Raises TypeError (updated es flag q n, w') <->
       hears n es /\ truthy (question_mark_id n) = false /\
       in_int (rect_y (rect n) - 80) = false) /\
    (NpcOnPygame.update es (n, w) = Raises TypeError (updated es flag q n, w') ->
       exists qid : Z,
         q = Some qid /\ entities w' !! qid = Some (centred_mark n)) /\
    (exists w0 : World, Npc.update es (n, w) = Ok (updated es flag q n, w0)) /\
    screen_offset w' = screen_offset w /\
    forall j : Z,
      question_mark_id n <> Some j ->
      j <> fresh (dom (entities w)) ->
      entities w' !! j = entities w !! j.
Proof.
  destruct (handle_loop (id n) es false) eqn:Hflag;
    [destruct (truthy (question_mark_id n)) eqn:Hq|].
  2:{ (* told near, no mark *)
    assert (Hh : hears n es) by (apply hears_iff_flag, Hflag).
    pose proof (on_pygame_near_without_mark es n w Hh Hq) as Hup.
    pose proof (update_near_without_mark es n w Hh Hq) as Hplain.
    destruct (in_int (rect_y (rect n) - 80)) eqn:Hy.
    - eexists _, _, _. split; [left; exact Hup|].
      split; [rewrite Hup; split; [discriminate | intros (_ & _ & H); discriminate H]|].
      split; [rewrite Hup; discriminate|].
      split; [eexists; exact Hplain|]. split; [reflexivity|].
      simpl. intros j _ Hj. apply lookup_insert_ne. congruence.
    - eexists _, _, _. split; [right; exact Hup|].
      split; [split; [intros _; auto | intros _; exact Hup]|].
      split; [intros _; eexists; split; [reflexivity | apply lookup_insert_eq]|].
      split; [eexists; exact Hplain|]. split; [reflexivity|].
      simpl. intros j _ Hj. apply lookup_insert_ne. congruence. }
  all: assert (Hnot : ~ (hears n es /\ truthy (question_mark_id n) = false))
         by (intros [Hh Hq']; apply hears_iff_flag in Hh; congruence).
  all: destruct (on_pygame_otherwise es n w Hnot) as ([n' w'] & Hplain & Hup).
  all: destruct (update_touches_only_its_question_mark_aux es n w)
         as (flag & q & w0 & Hplain' & Hoff & Hframe).
  all: rewrite Hplain in Hplain'; injection Hplain' as -> ->.
  all: exists flag, q, w0; rewrite Hup.
  all: split; [left; reflexivity|].
  all: split; [split; [discriminate | intros (Hh & Hq' & _); exfalso; apply Hnot; split; [exact Hh | congruence]]|].
  all: split; [discriminate|].
  all: split; [exists w0; exact Hplain|].
  all: split; [exact Hoff | exact Hframe].
Qed.

End WithConfig.

Section WithGameConfig.
Context `{C : Config} `{G : GameConfig}.

(** X15. On pygame rectangles: the constructor raises TypeError exactly
    when the spawn top plus TILE_SIZE is not a C int.  Otherwise the NPC it
    builds has its bottom one tile below the spawn top, keeps its left edge
    and its size and holds no question mark, so updates that do not tell it
    the player is near leave the World untouched.  Its top is the spawn top
    plus TILE_SIZE less its height, as a C int: an NPC taller than a tile
    moves up, unless that position falls below the C int range, where the
    top wraps around by 2^32. *)
Theorem new_npc_stands_on_its_tile
    (config : NpcConfig) (base : FriendlyNpc) (es : list GameEvent) (w : World) :
  let spawn_top := rect_top (rect base) in
  let height := Z.of_N (rect_h (rect base)) in
  (__init__ config base = None <-> in_int (spawn_top + TILE_SIZE) = false) /\
  forall n : FriendlyNpc,
    __init__ config base = Some n ->
    get_bottom (rect n) = spawn_top + TILE_SIZE /\
    rect_left (rect n) = rect_left (rect base) /\
    rect_w (rect n) = rect_w (rect base) /\
    rect_h (rect n) = rect_h (rect base) /\
    id n = id base /\
    rect_top (rect n) = wrap (spawn_top + TILE_SIZE - height) /\
    (TILE_SIZE < height -> INT_MIN <= spawn_top + TILE_SIZE - height ->
       rect_top (rect n) = spawn_top + TILE_SIZE - height /\
       rect_top (rect n) < spawn_top) /\
    (height <= INT_MAX -> spawn_top + TILE_SIZE - height < INT_MIN ->
       rect_top (rect n) = spawn_top + TILE_SIZE - height + 4294967296) /\
    (~ hears n es ->
       NpcOnPygame.update es (n, w) = Returns (updated es false None n, w)).
Proof.
  intros spawn_top height. unfold __init__.
  destruct (assign_bottom (rect_y (rect base) + TILE_SIZE) (rect base)) as [r|] eqn:Hr.
  - assert (Hin : in_int (rect_y (rect base) + TILE_SIZE) = true).
    { unfold assign_bottom in Hr. destruct (in_int _); [reflexivity | discriminate]. }
    split; [split; [discriminate | unfold spawn_top, rect_top; congruence]|].
    intros n [= <-].
    destruct (bottom_assigned _ _ _ Hr) as (Hb & Hy & Hx & Hw & Hh).
    apply in_int_iff in Hin. unfold spawn_top, height, rect_top, rect_left in *.
    cbn [rect id].
    split; [exact Hb|]. split; [exact Hx|]. split; [exact Hw|]. split; [exact Hh|].
    split; [reflexivity|]. split; [exact Hy|].
    split; [|split].
    + intros Htall Hlow. rewrite Hy, wrap_id; [lia|].
      apply in_int_iff. lia.
    + intros Hh' Hlow. rewrite Hy. apply wrap_below.
      unfold INT_MIN, INT_MAX in *. lia.
    + intros Hfar.
      match goal with
      | |- NpcOnPygame.update es (?m, w) = _ =>
          assert (Hnot : ~ (hears m es /\ truthy (question_mark_id m) = false))
            by (intros [Hh' _]; contradiction);
          destruct (on_pygame_otherwise es m w Hnot) as (x & Hplain & Hup);
          rewrite Hup; f_equal;
          rewrite (update_far_without_mark es m w Hfar eq_refl) in Hplain
      end.
      injection Hplain as <-. reflexivity.
  - split.
    + split; [intros _ | reflexivity].
      unfold assign_bottom in Hr. unfold spawn_top, rect_top.
      destruct (in_int _); [discriminate | reflexivity].
    + intros n Hn. discriminate Hn.
Qed.

End WithGameConfig.

End NpcOnPygameProps.

(** ** The player's scroll step on pygame rectangles *)

Module PlayerOnPygameProps.
Import OverlapDetector Errors Worlds Event Geometry PygameRect PlayerEntity.
Import PygameRectProps.

Section WithMotion.
Context {Extra : Type} `{M : @Motion Extra} `{G : GameConfig}.

Lemma screen_offset_off_the_edge (at_left_most : bool) (p : @Player Extra) :
  at_an_edge at_left_most p = false ->
  _update_screen_offset at_left_most p = Some (p, 0).
Proof. intros H. unfold _update_screen_offset. rewrite H. reflexivity. Qed.

Lemma screen_offset_at_an_edge (at_left_most : bool) (p : @Player Extra) :
  at_an_edge at_left_most p = true ->
  _update_screen_offset at_left_most p
  = if in_int (rect_x (rect (body p)) - dx (body p))
    then Some (with_body {| rect := set_x (rect_x (rect (body p)) - dx (body p))
                                          (rect (body p));
                            dx := dx (body p); extra := extra (body p) |} p,
               - dx (body p))
    else None.
Proof.
  intros H. unfold _update_screen_offset, assign_x. rewrite H.
  destruct (in_int _); reflexivity.
Qed.

(** X22. The scroll step hands the World the player's own displacement, or
    nothing at all.  When it returns, the argument passed to
    [update_screen_offset] is 0 or [-dx], the player's x has changed by
    exactly that argument, and nothing else of the player has changed.  It
    raises TypeError, passing nothing on, exactly when the player is at an
    edge and x less dx is not a C int. *)
Theorem screen_offset_hands_over_the_displacement
    (at_left_most : bool) (p : @Player Extra) :
  let r := rect (body p) in
  (_update_screen_offset at_left_most p = None <->
     at_an_edge at_left_most p = true /\ in_int (rect_x r - dx (body p)) = false) /\
  forall (p' : Player) (delta : Z),
    _update_screen_offset at_left_most p = Some (p', delta) ->
    (delta = 0 \/ delta = - dx (body p)) /\
    p' = with_body {| rect := set_x (rect_x r + delta) r;
                      dx := dx (body p); extra := extra (body p) |} p.
Proof.
  intros r. unfold r.
  destruct (at_an_edge at_left_most p) eqn:Hedge.
  - rewrite screen_offset_at_an_edge by exact Hedge.
    destruct (in_int _) eqn:Hin.
    + split; [split; [discriminate | intros [_ H]; discriminate H]|].
      intros p' delta [= <- <-]. split; [right; reflexivity|].
      rewrite Z.add_opp_r. reflexivity.
    + split; [split; [auto | reflexivity]|]. intros p' delta H. discriminate H.
  - rewrite screen_offset_off_the_edge by exact Hedge.
    split; [split; [discriminate | intros [H _]; discriminate H]|].
    intros p' delta [= <- <-]. split; [left; reflexivity|].
    destruct p as [[[x y w h] d ex] near t inv iid evs]. unfold with_body, set_x. simpl.
    rewrite Z.add_0_r. reflexivity.
Qed.

(** X23. With a positive soft edge width, and [rect.right] as pygame reads
    it (the C int sum of x and w, which is x + w whenever that is a C
    int): the player walks freely (position kept, 0 passed on) when its
    right is clear of the right soft edge and its left is either clear of
    the left soft edge or, the World being at its left-most, clear of the
    left screen edge.  In every other position the step is undone: x goes
    back by [dx] and [-dx] is passed on, provided x less dx is a C int.
    The right soft edge scrolls whatever the World's position. *)
Theorem screen_offset_scrolls_at_the_edges
    (at_left_most : bool) (p : @Player Extra) :
  let r := rect (body p) in
  0 < PLAYER_SOFT_EDGE_WIDTH ->
  (get_right r <= WIDTH - PLAYER_SOFT_EDGE_WIDTH ->
   PLAYER_SOFT_EDGE_WIDTH <= rect_left r \/ (at_left_most = true /\ 0 < rect_left r) ->
   _update_screen_offset at_left_most p = Some (p, 0)) /\
  (WIDTH - PLAYER_SOFT_EDGE_WIDTH < get_right r \/ rect_left r <= 0 \/
   (rect_left r < PLAYER_SOFT_EDGE_WIDTH /\ at_left_most = false) ->
   in_int (rect_x r - dx (body p)) = true ->
   exists p' : Player,
     _update_screen_offset at_left_most p = Some (p', - dx (body p)) /\
     rect_x (rect (body p')) = rect_x r - dx (body p)) /\
  (in_int (rect_x r + Z.of_N (rect_w r)) = true -> get_right r = rect_right r).
Proof.
  intros r Hsoft. split; [|split].
  - intros Hright Hleft. apply screen_offset_off_the_edge.
    unfold at_an_edge. cbv zeta. fold r.
    assert (H1 : (rect_left r <=? 0) = false)
      by (apply Z.leb_gt; destruct Hleft as [? | [_ ?]]; lia).
    assert (H2 : (WIDTH <=? get_right r) = false) by (apply Z.leb_gt; lia).
    assert (H3 : (WIDTH - PLAYER_SOFT_EDGE_WIDTH <? get_right r) = false)
      by (apply Z.ltb_ge; lia).
    assert (H4 : (rect_left r <? PLAYER_SOFT_EDGE_WIDTH) && negb at_left_most = false).
    { destruct Hleft as [Hl | [Ha _]].
      - apply Z.ltb_ge in Hl. rewrite Hl. reflexivity.
      - rewrite Ha. apply andb_false_r. }
    rewrite H1, H2, H3, H4. reflexivity.
  - intros Hedge Hin.
    assert (Hcond : at_an_edge at_left_most p = true).
    { unfold at_an_edge. cbv zeta. fold r.
      destruct Hedge as [H | [H | [H Ha]]].
      - apply Z.ltb_lt in H. rewrite H. apply orb_true_r.
      - apply Z.leb_le in H. rewrite H. reflexivity.
      - apply Z.ltb_lt in H. rewrite H, Ha. simpl. rewrite orb_true_r. reflexivity. }
    rewrite screen_offset_at_an_edge by exact Hcond. fold r. rewrite Hin.
    eexists. split; reflexivity.
  - intros Hin. unfold get_right, rect_right. apply wrap_id, Hin.
Qed.

End WithMotion.

End PlayerOnPygameProps.

Module OnPygameScenarios.
Import OverlapDetector Errors Worlds Event Npc Geometry PygameRect NpcInit.
Import NpcObservations Scenarios MoreScenarios NpcExtraScenarios.
Import NpcOnPygame(TypeError, Returns, Raises, centred_mark, placed_mark).
Import NpcOnPygameProps PlayerOnPygameProps.
#[local] Existing Instance Tiles.
#[local] Existing Instance Screen.
#[local] Existing Instance Walk.

Lemma near_update_puts_a_question_mark_witness :
  exists (n' : FriendlyNpc) (w' : World) (q : Z),
    NpcOnPygame.update [near_npc7; near_npc8] (npc8, one_mark_world) = Returns (n', w') /\
    ~ is_live q one_mark_world /\
    question_mark_id n' = Some q /\
    get_centerx <$> (entity_rect <$> entities w' !! q) = Some 116 /\
    rect_top <$> (entity_rect <$> entities w' !! q) = Some 20.
Proof.
  destruct (near_update_puts_a_question_mark_above_the_npc
              [near_npc7; near_npc8] npc8 one_mark_world
              (npc8_hears_its_name npc8 eq_refl) eq_refl eq_refl)
    as (n' & w' & q & mark & Hup & Hfresh & Hq & Hmark & _ & _ & Hx & Hy & _).
  exists n', w', q. rewrite Hmark. simpl. rewrite Hx, Hy.
  split; [exact Hup|]. split; [exact Hfresh|]. split; [exact Hq|].
  split; reflexivity.
Defined.

(** An NPC so high that its top less 80 is no C int: the update raises
    after registering the mark. *)
Lemma update_raises_only_on_the_height_witness :
  exists (flag : bool) (q : option Z) (w' : World),
    NpcOnPygame.update [near_npc8] (npc8_at_the_top, empty_world)
    = Raises TypeError (updated [near_npc8] flag q npc8_at_the_top, w') /\
    exists qid : Z,
      q = Some qid /\ entities w' !! qid = Some (centred_mark npc8_at_the_top).
Proof.
  destruct (update_raises_only_on_the_height_and_touches_only_its_mark
              [near_npc8] npc8_at_the_top empty_world)
    as (flag & q & w' & _ & [_ Hraise] & Hmark & _).
  assert (Hr : NpcOnPygame.update [near_npc8] (npc8_at_the_top, empty_world)
               = Raises TypeError (updated [near_npc8] flag q npc8_at_the_top, w')).
  { apply Hraise. split; [|split; reflexivity].
    exists near_npc8. split; [apply elem_of_cons; left; reflexivity|].
    split; reflexivity. }
  exists flag, q, w'. split; [exact Hr | exact (Hmark Hr)].
Defined.

Example npc_at_the_top_raises :
  match NpcOnPygame.update [near_npc8] (npc8_at_the_top, empty_world) with
  | Raises TypeError (n, w) =>
      (is_near_player n, question_mark_id n,
       rect_top <$> (entity_rect <$> entities w !! 0))
  | _ => (false, None, None)
  end = (true, Some 0, Some 0).
Proof. vm_compute. reflexivity. Qed.

Lemma new_npc_stands_on_its_tile_witness :
  exists n : FriendlyNpc,
    __init__ (C := Tiles) tt npc8_with_mark = Some n /\
    get_bottom (rect n) = 100 + 32 /\
    rect_top (rect n) = 100 + 32 - 64 /\
    NpcOnPygame.update [near_npc7; broadcast_near] (n, one_mark_world)
    = Returns (updated [near_npc7; broadcast_near] false None n, one_mark_world).
Proof.
  destruct (new_npc_stands_on_its_tile (C := Tiles) tt npc8_with_mark
              [near_npc7; broadcast_near] one_mark_world) as [_ Hbuilt].
  eexists. split; [reflexivity|].
  destruct (Hbuilt _ eq_refl) as (Hb & _ & _ & _ & _ & _ & Hup & _ & Hfar).
  split; [exact Hb|]. split.
  - apply Hup; [reflexivity | vm_compute; discriminate].
  - apply Hfar. apply npc8_hears_nothing. reflexivity.
Defined.

(** Spawned at the bottom of the C int range, an NPC taller than a tile
    ends up at the top of it. *)
Example npc_spawned_too_low_wraps :
  rect_top <$> (rect <$> __init__ (C := Tiles) tt npc8_spawned_low)
  = Some 2147483626.
Proof. reflexivity. Qed.

Lemma screen_offset_scrolls_at_the_edges_witness :
  PlayerEntity._update_screen_offset false hero_in_the_middle = Some (hero_in_the_middle, 0) /\
  (exists p' : PlayerEntity.Player,
     PlayerEntity._update_screen_offset false hero_at_the_right = Some (p', -5) /\
     rect_x (PlayerEntity.rect (PlayerEntity.body p')) = 700 - 5) /\
  PlayerEntity._update_screen_offset false hero_at_the_end_of_the_ints
  = Some (hero_at_the_end_of_the_ints, 0).
Proof.
  assert (Hsoft : 0 < PLAYER_SOFT_EDGE_WIDTH) by reflexivity.
  destruct (screen_offset_scrolls_at_the_edges (G := Screen) false hero_in_the_middle Hsoft)
    as (Hfree & _ & _).
  destruct (screen_offset_scrolls_at_the_edges (G := Screen) false hero_at_the_right Hsoft)
    as (_ & Hedge & _).
  destruct (screen_offset_scrolls_at_the_edges (G := Screen) false
              hero_at_the_end_of_the_ints Hsoft)
    as (Hwrapped & _ & _).
  split; [|split].
  - apply Hfree; [vm_compute; discriminate | left; vm_compute; discriminate].
  - apply Hedge; [left; reflexivity | reflexivity].
  - apply Hwrapped; [vm_compute; discriminate | left; vm_compute; discriminate].
Defined.

Example scroll_step_at_the_start_of_the_ints_raises :
  PlayerEntity._update_screen_offset false hero_at_the_start_of_the_ints = None.
Proof. reflexivity. Qed.

End OnPygameScenarios.
